(** * Perspective: the unit context and the chunked websocket transport

    A shallow embedding of

    - [t_ctxunit] (cpp/perspective/src/cpp/context_unit.cpp), the unpivoted
      context: per-cycle delta tracking, [notify], [get_data],
      [get_row_delta];
    - [WebSocketClient] and [WebSocketManager]
      (packages/perspective/src/js/websocket.js): the chunked binary
      transport, the hosting of tables and views by name, and the requests
      of the connections of a manager (module [Connections]: the message
      handler of [add_connection], [post] and its timers).

    Machine integers ([t_index], signed 64 bit; [t_uindex], unsigned 64 bit)
    are embedded as [Z] and [N]/[nat].  Every index computed by [get_data]
    lies between [0] and the row or column count of the master table
    (lemma [sanitize_get_data_extents_bounds]), so no operation wraps. *)

From Stdlib Require Import ZArith Lia.
From Stdlib.Strings Require Import Byte.
From stdpp Require Import base gmap sets list strings pretty.

#[local] Set Warnings "-clear-no-such-hyp".

Module CtxUnit.

(** ** Outcomes of a call

    [PSP_COMPLAIN_AND_ABORT] terminates the process; a C++ exception
    unwinds to the caller. *)
Inductive outcome (A : Type) : Type :=
| Returned (a : A)
| Aborted (msg : string)
| Thrown (what : string).
Arguments Returned {A} a.
Arguments Aborted {A} msg.
Arguments Thrown {A} what.

#[global] Instance outcome_ret : MRet outcome := λ A a, Returned a.
#[global] Instance outcome_bind : MBind outcome := λ A B f m,
  match m with
  | Returned a => f a
  | Aborted msg => Aborted msg
  | Thrown what => Thrown what
  end.

(** ** Scalars

    [t_tscalar] (perspective/scalar.h) is not part of the sources at hand.
    The context only uses its validity test, the "none" scalar and the
    default-constructed scalar that fills a freshly allocated vector; these
    are the interface below.  Keys of the delta set are hashed and compared,
    hence [Countable]. *)
Class Scalar (T : Type) `{Countable T} := {
  is_valid : T → bool;
  mknone : T;
  scalar_default : T
}.

(** The symbol table: [m_symtable.get_interned_tscalar]. *)
Class SymTable (T : Type) := get_interned_tscalar : T → T.

(** Modelled from the spec: the enumeration [t_op] (perspective/base.h) is
    not part of the sources.  The switch of [notify] names [OP_INSERT] and
    [OP_DELETE]; the spec lists the operation tags INSERT, UPDATE and DELETE;
    [OP_OTHER] stands for any other byte found in the [psp_op] column. *)
Inductive t_op : Type :=
| OP_INSERT
| OP_UPDATE
| OP_DELETE
| OP_OTHER (raw : N).

#[global] Instance t_op_eq_dec : EqDecision t_op.
Proof. solve_decision. Defined.

(** The result of [sanitize_get_data_extents]. *)
Record t_get_data_extents : Type := {
  m_srow : Z;
  m_erow : Z;
  m_scol : Z;
  m_ecol : Z
}.

(** Modelled from the spec: [sanitize_get_data_extents]
    (perspective/get_data_extents.h) is not part of the sources.  The spec
    has the half-open ranges "clamped/sanitized against current bounds
    (out-of-range or inverted ranges are narrowed, never an error)": each
    bound is clamped to [0, count], and an end below its start is raised to
    the start, which leaves an empty range. *)
Definition sanitize_get_data_extents
    (nrows ncols start_row end_row start_col end_col : Z) : t_get_data_extents :=
  let start_row := Z.max 0 (Z.min start_row nrows) in
  let end_row := Z.max start_row (Z.max 0 (Z.min end_row nrows)) in
  let start_col := Z.max 0 (Z.min start_col ncols) in
  let end_col := Z.max start_col (Z.max 0 (Z.min end_col ncols)) in
  {| m_srow := start_row; m_erow := end_row;
     m_scol := start_col; m_ecol := end_col |}.

Section context_unit.
Context `{Scalar t_tscalar} `{!SymTable t_tscalar}.

(** One row of the flattened table: the columns [psp_pkey] and [psp_op].
    A [t_data_table] has the same number of cells in every column, so it is
    a list of rows; [flattened.size()] is its length. *)
Record t_flat_row : Type := {
  psp_pkey : t_tscalar;
  psp_op : t_op
}.

Definition t_data_table : Type := list t_flat_row.

(** The master state [t_gstate] as the context sees it: its sizes and the
    three [read_column] overloads, each of which receives the output vector
    and returns it filled. *)
Record t_gstate : Type := {
  num_rows : N;
  num_columns : N;
  read_column_range : string → Z → Z → list t_tscalar → list t_tscalar;
  read_column_rows : string → list N → list t_tscalar → list t_tscalar;
  read_column_pkeys : string → list t_tscalar → list t_tscalar → list t_tscalar
}.

(** The members of [t_ctxunit] (and of its base [t_ctxbase]) that the
    methods below read or write.  [m_schema] is the list of column names
    ([m_schema.columns()]); [m_delta_pkeys] is the
    [tsl::hopscotch_set<t_tscalar>]. *)
Record t_ctxunit : Type := {
  m_init : bool;
  m_schema : list string;
  m_gstate : t_gstate;
  m_delta_pkeys : gset t_tscalar;
  m_rows_changed : bool;
  m_columns_changed : bool;
  m_has_delta : bool
}.

Definition set_init (b : bool) (c : t_ctxunit) : t_ctxunit :=
  {| m_init := b; m_schema := m_schema c; m_gstate := m_gstate c;
     m_delta_pkeys := m_delta_pkeys c; m_rows_changed := m_rows_changed c;
     m_columns_changed := m_columns_changed c; m_has_delta := m_has_delta c |}.

Definition set_delta_pkeys (s : gset t_tscalar) (c : t_ctxunit) : t_ctxunit :=
  {| m_init := m_init c; m_schema := m_schema c; m_gstate := m_gstate c;
     m_delta_pkeys := s; m_rows_changed := m_rows_changed c;
     m_columns_changed := m_columns_changed c; m_has_delta := m_has_delta c |}.

Definition set_rows_changed (b : bool) (c : t_ctxunit) : t_ctxunit :=
  {| m_init := m_init c; m_schema := m_schema c; m_gstate := m_gstate c;
     m_delta_pkeys := m_delta_pkeys c; m_rows_changed := b;
     m_columns_changed := m_columns_changed c; m_has_delta := m_has_delta c |}.

Definition set_columns_changed (b : bool) (c : t_ctxunit) : t_ctxunit :=
  {| m_init := m_init c; m_schema := m_schema c; m_gstate := m_gstate c;
     m_delta_pkeys := m_delta_pkeys c; m_rows_changed := m_rows_changed c;
     m_columns_changed := b; m_has_delta := m_has_delta c |}.

Definition set_has_delta (b : bool) (c : t_ctxunit) : t_ctxunit :=
  {| m_init := m_init c; m_schema := m_schema c; m_gstate := m_gstate c;
     m_delta_pkeys := m_delta_pkeys c; m_rows_changed := m_rows_changed c;
     m_columns_changed := m_columns_changed c; m_has_delta := b |}.

(** ** Lifecycle *)

Definition init (c : t_ctxunit) : t_ctxunit := set_init true c.

Definition step_begin (c : t_ctxunit) : t_ctxunit :=
  if negb (m_init c) then c
  else set_columns_changed false (set_rows_changed false (set_delta_pkeys ∅ c)).

Definition step_end (c : t_ctxunit) : t_ctxunit := c.

Definition reset (c : t_ctxunit) : t_ctxunit := set_has_delta false c.

Definition has_deltas (c : t_ctxunit) : bool := m_has_delta c.

Definition clear_deltas (c : t_ctxunit) : t_ctxunit := set_has_delta false c.

Definition get_delta_pkeys (c : t_ctxunit) : gset t_tscalar := m_delta_pkeys c.

Definition add_delta_pkey (pkey : t_tscalar) (c : t_ctxunit) : t_ctxunit :=
  set_delta_pkeys ({[pkey]} ∪ m_delta_pkeys c) c.

Definition get_row_count (c : t_ctxunit) : Z := Z.of_N (num_rows (m_gstate c)).

Definition get_column_count (c : t_ctxunit) : Z := Z.of_N (num_columns (m_gstate c)).

(** ** notify *)

(** The loop of the six-argument [notify]: the context being updated and
    the local [delete_encountered] are threaded through the rows. *)
Fixpoint notify_rows (rows : list t_flat_row) (c : t_ctxunit)
    (delete_encountered : bool) : outcome (t_ctxunit * bool) :=
  match rows with
  | [] => Returned (c, delete_encountered)
  | row :: rest =>
      let pkey := get_interned_tscalar (psp_pkey row) in
      match psp_op row with
      | OP_INSERT => notify_rows rest (add_delta_pkey pkey c) delete_encountered
      | OP_DELETE => notify_rows rest (add_delta_pkey pkey c) true
      | _ => Aborted "Unexpected OP"
      end
  end.

Definition notify (c : t_ctxunit)
    (flattened delta prev curr transitions existed : t_data_table)
    : outcome t_ctxunit :=
  '(c', delete_encountered) ← notify_rows flattened c false;
  mret (set_has_delta
          (bool_decide (0 < size (m_delta_pkeys c')) || delete_encountered) c').

(** The one-argument [notify], used for the first batch. *)
Definition notify_first (c : t_ctxunit) (flattened : t_data_table) : t_ctxunit :=
  foldl (λ c row, add_delta_pkey (get_interned_tscalar (psp_pkey row)) c)
        (set_has_delta true c) flattened.

(** ** get_data *)

(** [std::vector<t_tscalar> v(n)] with a signed [n]: a negative [n] converts
    to a size above [max_size()] and the constructor throws; otherwise the
    vector holds [n] default-constructed scalars. *)
Definition vector_new (n : Z) : outcome (list t_tscalar) :=
  if bool_decide (n < 0)%Z then Thrown "vector::length_error"
  else Returned (replicate (Z.to_nat n) scalar_default).

(** [v[i]] (unchecked [operator[]]) and [columns[i]]. *)
Definition vector_at (v : list t_tscalar) (i : nat) : t_tscalar :=
  default scalar_default (v !! i).

Definition column_at (columns : list string) (i : nat) : string :=
  default EmptyString (columns !! i).

(** [if (!v.is_valid()) v.set(none);] *)
Definition normalize_cell (v : t_tscalar) : t_tscalar :=
  if is_valid v then v else mknone.

(** The inner loop of the range overload, for the column [cidx] whose cells
    were read into [out_data]. *)
Definition get_data_store_range (ext : t_get_data_extents) (stride cidx : Z)
    (out_data values : list t_tscalar) : list t_tscalar :=
  foldl (λ values ridx,
           let v := vector_at out_data (Z.to_nat (ridx - m_srow ext)) in
           <[Z.to_nat ((ridx - m_srow ext) * stride + (cidx - m_scol ext))
               := normalize_cell v]> values)
        values (seqZ (m_srow ext) (m_erow ext - m_srow ext)).

(** The outer loop of the range overload over the column indices [cols]. *)
Fixpoint get_data_columns (c : t_ctxunit) (start_row end_row : Z)
    (ext : t_get_data_extents) (num_rows stride : Z) (cols : list Z)
    (values : list t_tscalar) : outcome (list t_tscalar) :=
  match cols with
  | [] => Returned values
  | cidx :: rest =>
      out_data ← vector_new num_rows;
      let out_data :=
        read_column_range (m_gstate c) (column_at (m_schema c) (Z.to_nat cidx))
                          start_row end_row out_data in
      get_data_columns c start_row end_row ext num_rows stride rest
        (get_data_store_range ext stride cidx out_data values)
  end.

(** [get_data(start_row, end_row, start_col, end_col)] *)
Definition get_data (c : t_ctxunit) (start_row end_row start_col end_col : Z)
    : outcome (list t_tscalar) :=
  let ctx_nrows := get_row_count c in
  let ctx_ncols := get_column_count c in
  let ext := sanitize_get_data_extents
               ctx_nrows ctx_ncols start_row end_row start_col end_col in
  let num_rows := (m_erow ext - m_srow ext)%Z in
  let stride := (m_ecol ext - m_scol ext)%Z in
  values ← vector_new (num_rows * stride);
  get_data_columns c start_row end_row ext num_rows stride
    (seqZ (m_scol ext) (m_ecol ext - m_scol ext)) values.

(** The inner loop shared by the two sparse overloads: [n] is [rows.size()]
    (resp. [pkeys.size()]). *)
Definition get_data_store (n stride cidx : nat)
    (out_data values : list t_tscalar) : list t_tscalar :=
  foldl (λ values ridx,
           let v := vector_at out_data ridx in
           <[ridx * stride + cidx := normalize_cell v]> values)
        values (seq 0 n).

(** [get_data(const std::vector<t_uindex>& rows)] *)
Definition get_data_rows (c : t_ctxunit) (rows : list N) : list t_tscalar :=
  let stride := Z.to_nat (get_column_count c) in
  let values := replicate (length rows * stride) scalar_default in
  foldl (λ values cidx,
           let out_data :=
             read_column_rows (m_gstate c) (column_at (m_schema c) cidx) rows
                              (replicate (length rows) scalar_default) in
           get_data_store (length rows) stride cidx out_data values)
        values (seq 0 stride).

(** [get_data(const std::vector<t_tscalar>& pkeys)] *)
Definition get_data_pkeys (c : t_ctxunit) (pkeys : list t_tscalar)
    : list t_tscalar :=
  let stride := Z.to_nat (get_column_count c) in
  let values := replicate (length pkeys * stride) scalar_default in
  foldl (λ values cidx,
           let out_data :=
             read_column_pkeys (m_gstate c) (column_at (m_schema c) cidx) pkeys
                               (replicate (length pkeys) scalar_default) in
           get_data_store (length pkeys) stride cidx out_data values)
        values (seq 0 stride).

(** ** get_row_delta *)

Record t_rowdelta : Type := {
  rows_changed : bool;
  delta_num_rows : nat;
  delta_data : list t_tscalar
}.

(** The copy of the delta set into [pkey_vector].  The iteration order of a
    hopscotch set is unspecified; [elements] stands for it. *)
Definition delta_pkey_vector (c : t_ctxunit) : list t_tscalar :=
  elements (get_delta_pkeys c).

(** [get_row_delta]: the returned delta and the context after the call. *)
Definition get_row_delta (c : t_ctxunit) : t_rowdelta * t_ctxunit :=
  let rows_changed := m_rows_changed c in
  let pkey_vector := delta_pkey_vector c in
  let data := get_data_pkeys c pkey_vector in
  let rval := {| rows_changed := rows_changed;
                 delta_num_rows := length pkey_vector;
                 delta_data := data |} in
  (rval, clear_deltas c).

(** A run of [notify] calls inside one update cycle. *)
Inductive notify_call : Type :=
| NotifyFirst (flattened : t_data_table)
| NotifyUpdate (flattened delta prev curr transitions existed : t_data_table).

Definition call_flattened (call : notify_call) : t_data_table :=
  match call with
  | NotifyFirst flattened => flattened
  | NotifyUpdate flattened _ _ _ _ _ => flattened
  end.

Definition run_notify (c : t_ctxunit) (call : notify_call) : outcome t_ctxunit :=
  match call with
  | NotifyFirst flattened => Returned (notify_first c flattened)
  | NotifyUpdate flattened delta prev curr transitions existed =>
      notify c flattened delta prev curr transitions existed
  end.

Fixpoint run_notifies (c : t_ctxunit) (calls : list notify_call)
    : outcome t_ctxunit :=
  match calls with
  | [] => Returned c
  | call :: rest => c' ← run_notify c call; run_notifies c' rest
  end.

(** ** Vocabulary of the statements *)

(** The interned keys of the rows of a flattened table, as a set. *)
Definition flattened_pkeys (flattened : t_data_table) : gset t_tscalar :=
  list_to_set ((λ row, get_interned_tscalar (psp_pkey row)) <$> flattened).

(** The tags the switch of [notify] has a case for. *)
Definition recognized_op (op : t_op) : bool :=
  match op with
  | OP_INSERT | OP_DELETE => true
  | _ => false
  end.

Definition is_delete (op : t_op) : bool :=
  match op with
  | OP_DELETE => true
  | _ => false
  end.

(** The tags the spec lists. *)
Definition listed_op (op : t_op) : bool :=
  match op with
  | OP_INSERT | OP_UPDATE | OP_DELETE => true
  | OP_OTHER _ => false
  end.

(** A cell as [get_data] returns it: valid, or the "none" scalar. *)
Definition normalized (v : t_tscalar) : Prop :=
  is_valid v = true ∨ v = mknone.

(** The value the master state holds for a cell, as each overload of
    [get_data] reads it: cell [ridx] of the vector [read_column] filled for
    column [cidx]. *)
Definition stored_range (c : t_ctxunit) (start_row end_row : Z)
    (ext : t_get_data_extents) (cidx ridx : Z) : t_tscalar :=
  vector_at
    (read_column_range (m_gstate c) (column_at (m_schema c) (Z.to_nat cidx))
       start_row end_row
       (replicate (Z.to_nat (m_erow ext - m_srow ext)) scalar_default))
    (Z.to_nat (ridx - m_srow ext)).

Definition stored_rows (c : t_ctxunit) (rows : list N) (cidx ridx : nat)
    : t_tscalar :=
  vector_at
    (read_column_rows (m_gstate c) (column_at (m_schema c) cidx) rows
       (replicate (length rows) scalar_default))
    ridx.

Definition stored_pkeys (c : t_ctxunit) (pkeys : list t_tscalar)
    (cidx ridx : nat) : t_tscalar :=
  vector_at
    (read_column_pkeys (m_gstate c) (column_at (m_schema c) cidx) pkeys
       (replicate (length pkeys) scalar_default))
    ridx.

(** The number of times [k] occurs in a key sequence. *)
Definition occurrences (k : t_tscalar) (keys : list t_tscalar) : nat :=
  length (filter (λ x, x = k) keys).

(** ** Column names *)

(** A [t_index] converted to [t_uindex], as the comparison of a signed
    index with a [size()] does. *)
Definition to_uindex (idx : Z) : Z := (idx mod 2 ^ 64)%Z.

(** [get_column_name(t_index idx)] *)
Definition get_column_name (c : t_ctxunit) (idx : Z) : string :=
  let columns := m_schema c in
  if bool_decide (Z.of_nat (length columns) ≤ to_uindex idx)%Z then EmptyString
  else column_at columns (Z.to_nat (to_uindex idx)).

(** [get_column_names()] *)
Definition get_column_names (c : t_ctxunit) : list string := m_schema c.

End context_unit.

Arguments t_flat_row : clear implicits.
Arguments t_data_table : clear implicits.
Arguments t_gstate : clear implicits.
Arguments t_ctxunit t_tscalar {_ _}.
Arguments t_rowdelta : clear implicits.
Arguments notify_call : clear implicits.

(** ** A concrete instance, to run the model *)

(** Modelled from the spec: a scalar is "a tagged value (one of a fixed set
    of primitive kinds, plus a distinguished none/null and a distinguished
    clear/unset sentinel)".  Two primitive kinds are enough for the
    scenarios below; the unset sentinel is the scalar that is not valid. *)
Inductive scalar : Type :=
| SInt (z : Z)
| SStr (s : string)
| SNone
| SClear.

#[global] Instance scalar_eq_dec : EqDecision scalar.
Proof. solve_decision. Defined.

Definition scalar_encode (v : scalar) : Z + string + bool :=
  match v with
  | SInt z => inl (inl z)
  | SStr s => inl (inr s)
  | SNone => inr false
  | SClear => inr true
  end.

Definition scalar_decode (e : Z + string + bool) : scalar :=
  match e with
  | inl (inl z) => SInt z
  | inl (inr s) => SStr s
  | inr false => SNone
  | inr true => SClear
  end.

#[global] Instance scalar_countable : Countable scalar.
Proof.
  apply (inj_countable' scalar_encode scalar_decode).
  intros []; reflexivity.
Defined.

#[global] Instance scalar_ops : Scalar scalar := {|
  is_valid := λ v, match v with SClear => false | _ => true end;
  mknone := SNone;
  scalar_default := SClear
|}.

(** Equal scalars intern to equal handles: the handle is the scalar. *)
#[global] Instance scalar_symtable : SymTable scalar := λ v, v.

(** Modelled from the spec: a master table in the shape of the spec's
    concrete scenario, schema (pkey : string, value : int) with the keys A
    and B; the value of B is left unset, so that [get_data] has a cell to
    normalise.  It is read by range, by row index and by primary key. *)
Definition example_columns : list (string * list scalar) :=
  [("pkey", [SStr "A"; SStr "B"]); ("value", [SInt 1; SClear])]%string.

Definition example_column (name : string) : list scalar :=
  default [] ((λ found, snd (snd found))
                <$> list_find (λ col, fst col = name) example_columns).

Definition example_row_of_pkey (pkey : scalar) : option nat :=
  fst <$> list_find (λ v, v = pkey) (example_column "pkey").

Definition example_gstate : t_gstate scalar := {|
  num_rows := 2;
  num_columns := 2;
  read_column_range := λ name start_row end_row out_data,
    if bool_decide (end_row - start_row ≤ 0)%Z then out_data
    else take (Z.to_nat (end_row - start_row))
              (drop (Z.to_nat start_row) (example_column name));
  read_column_rows := λ name rows out_data,
    (λ r, default SClear (example_column name !! N.to_nat r)) <$> rows;
  read_column_pkeys := λ name pkeys out_data,
    (λ k, default SClear (example_row_of_pkey k
                            ≫= λ r, example_column name !! r)) <$> pkeys
|}.

(** A context on that table, initialised, with nothing tracked yet. *)
Definition example_ctx : t_ctxunit scalar := {|
  m_init := true;
  m_schema := ["pkey"; "value"]%string;
  m_gstate := example_gstate;
  m_delta_pkeys := ∅;
  m_rows_changed := false;
  m_columns_changed := false;
  m_has_delta := false
|}.

Definition example_row (k : string) (op : t_op) : t_flat_row scalar :=
  {| psp_pkey := SStr k; psp_op := op |}.

(** The context after a first batch that inserts the key A. *)
Definition example_ctx_after_insert : t_ctxunit scalar :=
  notify_first example_ctx [example_row "A" OP_INSERT].

End CtxUnit.

Module WebSocket.

(** ** Frames and messages

    A JSON message as the transport reads it: its [id], the number under
    [binary_length] when the field is present, [data.port_id] when [data]
    is an object that has it, and the rest of the message.  [JSON.stringify]
    followed by [JSON.parse] gives the message back, so a text frame carries
    the message itself. *)
Record json_msg : Type := {
  msg_id : Z;
  msg_binary_length : option nat;
  msg_port_id : option Z;
  msg_body : string
}.

Inductive ws_frame : Type :=
| PongFrame
| TextFrame (msg : json_msg)
| BinaryFrame (binary : list byte).

(** What [_handle] receives: a plain message, a binary under the message
    id, or, for an [on_update] callback, the binary joined with the port. *)
Inductive handled : Type :=
| HandleMsg (msg : json_msg)
| HandleBinary (id : Z) (data : list byte)
| HandleUpdate (id : Z) (port_id : Z) (delta : list byte).

(** A handler either completes or throws. *)
Inductive js_result (A : Type) : Type :=
| Done (a : A)
| Throw (error : string).
Arguments Done {A} a.
Arguments Throw {A} error.

(** ** WebSocketClient

    The fields the [onmessage] handler uses.  [None] is [undefined] (or
    [null]) for the object fields and [NaN] for [_total_chunk_length]. *)
Record client : Type := {
  _full_binary : option (list byte);
  _total_chunk_length : option nat;
  _pending_binary : option Z;
  _pending_binary_length : option nat;
  _pending_port_id : option Z
}.

(** The state the constructor leaves. *)
Definition new_client : client := {|
  _full_binary := None;
  _total_chunk_length := Some 0;
  _pending_binary := None;
  _pending_binary_length := Some 0;
  _pending_port_id := None
|}.

(** Truthiness of [this._pending_binary] and of [msg.binary_length]. *)
Definition truthy_id (v : option Z) : bool :=
  match v with
  | Some id => negb (id =? 0)%Z
  | None => false
  end.

Definition truthy_length (v : option nat) : bool :=
  match v with
  | Some n => negb (n =? 0)
  | None => false
  end.

(** [target.set(source, offset)] on a [Uint8Array]: a [RangeError] when the
    source does not fit. *)
Definition uint8array_set (target source : list byte) (offset : nat)
    : js_result (list byte) :=
  if bool_decide (offset + length source ≤ length target)
  then Done (take offset target ++ source ++ drop (offset + length source) target)
  else Throw "RangeError: offset is out of bounds".

(** [x === y] on numbers, [NaN] and [undefined] being [None]. *)
Definition strict_eq_length (x y : option nat) : bool :=
  match x, y with
  | Some a, Some b => a =? b
  | _, _ => false
  end.

(** The state after a complete binary was handled. *)
Definition end_binary_flow (c : client) : client := {|
  _full_binary := None;
  _total_chunk_length := Some 0;
  _pending_binary := None;
  _pending_binary_length := None;
  _pending_port_id := None
|}.

(** The branch of [onmessage] taken while a binary is pending; [source] is
    [new Uint8Array(msg.data)] and [byte_length] is [msg.data.byteLength]
    ([undefined] for a string, so that the sum is [NaN], and the offset
    [NaN] counts as 0). *)
Definition on_chunk (c : client) (id : Z) (source : list byte)
    (byte_length : option nat) : js_result (client * list handled) :=
  match _full_binary c with
  | None => Throw "TypeError: cannot read properties of undefined"
  | Some full =>
      match uint8array_set full source (default 0 (_total_chunk_length c)) with
      | Throw e => Throw e
      | Done full' =>
          let total := match _total_chunk_length c, byte_length with
                       | Some t, Some n => Some (t + n)
                       | _, _ => None
                       end in
          if strict_eq_length total (_pending_binary_length c) then
            let result := match _pending_port_id c with
                          | Some port_id => HandleUpdate id port_id full'
                          | None => HandleBinary id full'
                          end in
            Done (end_binary_flow c, [result])
          else
            Done ({| _full_binary := Some full';
                     _total_chunk_length := total;
                     _pending_binary := _pending_binary c;
                     _pending_binary_length := _pending_binary_length c;
                     _pending_port_id := _pending_port_id c |}, [])
      end
  end.

(** [this._ws.onmessage]: the new state and the calls of [_handle]. *)
Definition onmessage (c : client) (frame : ws_frame)
    : js_result (client * list handled) :=
  match frame with
  | PongFrame => Done (c, [])
  | _ =>
      if truthy_id (_pending_binary c) then
        let id := default 0%Z (_pending_binary c) in
        match frame with
        | BinaryFrame binary => on_chunk c id binary (Some (length binary))
        | _ => on_chunk c id [] None
        end
      else
        match frame with
        | BinaryFrame _ => Throw "SyntaxError: JSON.parse"
        | PongFrame => Done (c, [])
        | TextFrame msg =>
            if truthy_length (msg_binary_length msg) then
              let len := default 0 (msg_binary_length msg) in
              Done ({| _full_binary := Some (replicate len Byte.x00);
                       _total_chunk_length := _total_chunk_length c;
                       _pending_binary := Some (msg_id msg);
                       _pending_binary_length := msg_binary_length msg;
                       _pending_port_id :=
                         match msg_port_id msg with
                         | Some port_id => Some port_id
                         | None => _pending_port_id c
                         end |}, [])
            else Done (c, [HandleMsg msg])
        end
  end.

(** The handler run over the frames of a connection, in order, up to the
    first frame on which it throws. *)
Fixpoint receive (c : client) (frames : list ws_frame)
    : js_result (client * list handled) :=
  match frames with
  | [] => Done (c, [])
  | frame :: rest =>
      match onmessage c frame with
      | Throw e => Throw e
      | Done (c', calls) =>
          match receive c' rest with
          | Throw e => Throw e
          | Done (c'', calls') => Done (c'', calls ++ calls')
          end
      end
  end.

(** ** WebSocketManager: posting a binary *)

(** [this.chunk_size], as the constructor sets it. *)
Definition default_chunk_size : nat := 50 * 1000 * 1000.

(** [binary.slice(start, end)] *)
Definition slice (binary : list byte) (start end_ : nat) : list byte :=
  take (end_ - start) (drop start binary).

(** [_post_chunked]: the chunks sent, oldest first.  Every call after the
    first runs from a timer; [fuel] bounds the number of calls, and [None]
    is a run that needs more. *)
Fixpoint _post_chunked (fuel : nat) (chunk_size : nat) (binary : list byte)
    (start end_ length : nat) : option (list (list byte)) :=
  match fuel with
  | 0 => None
  | S fuel =>
      if bool_decide (start < length) then
        let end_ := start + chunk_size in
        let end_ := if bool_decide (length < end_) then length else end_ in
        let chunk := slice binary start end_ in
        let start := end_ in
        cons chunk <$> _post_chunked fuel chunk_size binary start end_ length
      else Some []
  end.

(** The message [post] sends ahead of the chunks. *)
Definition pre_message (msg : json_msg) (binary : list byte) : json_msg :=
  {| msg_id := msg_id msg;
     msg_binary_length := Some (length binary);
     msg_port_id := msg_port_id msg;
     msg_body := msg_body msg |}.

(** The frames [post(msg, transferable)] sends on the socket of the request
    when [transferable] holds [binary]: the message with its
    [binary_length], then the chunks.  [msg] has its client-side id. *)
Definition post_binary (fuel : nat) (chunk_size : nat) (msg : json_msg)
    (binary : list byte) : option (list ws_frame) :=
  let pre_msg := pre_message msg binary in
  chunks ← _post_chunked fuel chunk_size binary 0 chunk_size (length binary);
  Some (TextFrame pre_msg :: (BinaryFrame <$> chunks)).

(** An idle client: no binary pending, as the constructor and every
    completed binary leave it. *)
Definition idle (c : client) : Prop :=
  _pending_binary c = None
  ∧ _pending_port_id c = None
  ∧ _total_chunk_length c = Some 0.

(** What [_handle] is called with for the binary of message [id]. *)
Definition delivered (id : Z) (port_id : option Z) (binary : list byte)
    : handled :=
  match port_id with
  | Some port_id => HandleUpdate id port_id binary
  | None => HandleBinary id binary
  end.

(** A message and a binary to run the transport on. *)
Definition example_msg : json_msg :=
  {| msg_id := 7; msg_binary_length := None; msg_port_id := None;
     msg_body := "to_arrow" |}.

Definition example_msg_zero_id : json_msg :=
  {| msg_id := 0; msg_binary_length := None; msg_port_id := None;
     msg_body := "to_arrow" |}.

Definition example_binary : list byte := [x01; x02; x03; x04; x05].

(** ** WebSocketManager: hosting tables and views *)

(** A hosted table or view, by identity. *)
Definition hosted : Type := nat.

(** The two caches [_host] is called with. *)
Inductive cache_ref : Type :=
| Tables
| Views.

(** [_tables] and [_views] hold own properties only.  [on_delete] callbacks
    registered by [_host] are kept per hosted object: each deletes one name
    from one cache. *)
Record manager : Type := {
  _tables : gmap string hosted;
  _views : gmap string hosted;
  on_delete_callbacks : list (hosted * (cache_ref * string))
}.

Definition cache_of (r : cache_ref) (m : manager) : gmap string hosted :=
  match r with
  | Tables => _tables m
  | Views => _views m
  end.

Definition set_cache (r : cache_ref) (cache : gmap string hosted)
    (m : manager) : manager :=
  match r with
  | Tables => {| _tables := cache; _views := _views m;
                 on_delete_callbacks := on_delete_callbacks m |}
  | Views => {| _tables := _tables m; _views := cache;
                on_delete_callbacks := on_delete_callbacks m |}
  end.

Definition on_delete (input : hosted) (callback : cache_ref * string)
    (m : manager) : manager :=
  {| _tables := _tables m; _views := _views m;
     on_delete_callbacks := on_delete_callbacks m ++ [(input, callback)] |}.

(** The double quote character. *)
Definition dquote : string := String (Ascii.ascii_of_nat 34) EmptyString.

(** The message of the error [_host] throws. *)
Definition already_exists (name : string) : string :=
  (dquote +:+ name +:+ dquote +:+ " already exists")%string.

(** [_host(cache, name, input)]: the manager after the call, and whether
    the call completed or threw. *)
Definition _host (cache : cache_ref) (name : string) (input : hosted)
    (m : manager) : manager * js_result unit :=
  match cache_of cache m !! name with
  | Some _ => (m, Throw (already_exists name))
  | None =>
      let m := on_delete input (cache, name) m in
      (set_cache cache (<[name := input]> (cache_of cache m)) m, Done ())
  end.

Definition host_table (name : string) (table : hosted) (m : manager)
    : manager * js_result unit :=
  _host Tables name table m.

Definition host_view (name : string) (view : hosted) (m : manager)
    : manager * js_result unit :=
  _host Views name view m.

Definition eject_table (name : string) (m : manager) : manager :=
  set_cache Tables (delete name (_tables m)) m.

Definition eject_view (name : string) (m : manager) : manager :=
  set_cache Views (delete name (_views m)) m.

#[global] Instance cache_ref_eq_dec : EqDecision cache_ref.
Proof. solve_decision. Defined.

(** The callback [_host] registers: [() => { delete cache[name]; }]. *)
Definition run_on_delete_callback (callback : cache_ref * string)
    (m : manager) : manager :=
  set_cache callback.1 (delete callback.2 (cache_of callback.1 m)) m.

(** The callbacks registered with [on_delete] on the object [input], run in
    the order of their registration; this is what deleting a hosted table
    or view sets off ("Hosted objects are automatically ejected when their
    delete() method is called"). *)
Definition fire_on_delete (input : hosted) (m : manager) : manager :=
  foldl (λ m entry, if bool_decide (entry.1 = input)
                    then run_on_delete_callback entry.2 m else m)
        m (on_delete_callbacks m).

(** The names a plain object answers without owning them, those of
    [Object.prototype]: on such a name [cache[name]] is not [undefined]
    though nothing was hosted, and [delete] leaves it so.  On every other
    name a plain object and a map of own properties agree. *)
Definition object_prototype_names : list string :=
  ["constructor"; "hasOwnProperty"; "isPrototypeOf"; "propertyIsEnumerable";
   "toLocaleString"; "toString"; "valueOf"; "__proto__";
   "__defineGetter__"; "__defineSetter__";
   "__lookupGetter__"; "__lookupSetter__"]%string.

(** ** Runs of posts *)

(** The handler run over every frame of a connection: an exception of the
    handler is reported by the socket, and the next frame is handled all
    the same.  Every throw of [onmessage] ([JSON.parse], the access to
    [_full_binary], the range check of [set]) comes before its first
    assignment, so the state is then as it was. *)
Fixpoint receive_all (c : client) (frames : list ws_frame)
    : client * list handled :=
  match frames with
  | [] => (c, [])
  | frame :: rest =>
      match onmessage c frame with
      | Throw _ => receive_all c rest
      | Done (c', calls) =>
          let r := receive_all c' rest in (r.1, calls ++ r.2)
      end
  end.

(** A client that waits for chunks it can never count: the buffer is
    missing, or the count is [NaN], or the count is past the buffer. *)
Definition wedged (c : client) : Prop :=
  truthy_id (_pending_binary c) = true
  ∧ match _full_binary c, _total_chunk_length c with
    | None, _ => True
    | Some _, None => True
    | Some full, Some total => length full < total
    end.

Definition is_pong (frame : ws_frame) : bool :=
  match frame with
  | PongFrame => true
  | _ => false
  end.

(** The frames one call of [post(msg, transferable)] sends: the message
    alone, or the message with its [binary_length] and the chunks. *)
Definition post_frames (fuel chunk_size : nat) (msg : json_msg)
    (transferable : option (list byte)) : option (list ws_frame) :=
  match transferable with
  | Some binary => post_binary fuel chunk_size msg binary
  | None => Some [TextFrame msg]
  end.

(** The frames of several posts made one after the other, each with its
    chunks sent before the next post. *)
Fixpoint posts_frames (fuel chunk_size : nat)
    (posts : list (json_msg * option (list byte))) : option (list ws_frame) :=
  match posts with
  | [] => Some []
  | (msg, transferable) :: rest =>
      frames ← post_frames fuel chunk_size msg transferable;
      frames' ← posts_frames fuel chunk_size rest;
      Some (frames ++ frames')
  end.

(** What the handler of the client is to receive for a post. *)
Definition expected_call (post : json_msg * option (list byte)) : handled :=
  match post.2 with
  | Some binary => delivered (msg_id post.1) (msg_port_id post.1) binary
  | None => HandleMsg post.1
  end.

(** A post the client can take: a plain message carries no truthy
    [binary_length]; a binary is not empty, its message id is not 0, and
    the fuel covers it. *)
Definition deliverable (fuel : nat) (post : json_msg * option (list byte))
    : Prop :=
  match post.2 with
  | Some binary => binary ≠ [] ∧ msg_id post.1 ≠ 0%Z ∧ length binary < fuel
  | None => truthy_length (msg_binary_length post.1) = false
  end.

(** A client in the middle of the example binary: the first chunk is in. *)
Definition example_pending_client : client := {|
  _full_binary := Some [x01; x02; x00; x00; x00];
  _total_chunk_length := Some 2;
  _pending_binary := Some 7%Z;
  _pending_binary_length := Some 5;
  _pending_port_id := None
|}.

(** A manager that hosts nothing. *)
Definition empty_manager : manager :=
  {| _tables := ∅; _views := ∅; on_delete_callbacks := [] |}.

End WebSocket.

(** * WebSocketManager: connections, requests and posts

    The side of [websocket.js] that talks to the connections: the message
    handler [add_connection] installs, [WebSocketClient.send] which feeds
    it, and [post] with the timers of [_post_chunked]. *)

Module Connections.

(** ** Requests *)

(** An element of [msg.args]: an [ArrayBuffer], any other JSON value (as
    its text), or a string that is the raw text of a frame. *)
Inductive js_arg : Type :=
| ArgBuffer (binary : list byte)
| ArgJson (json : string)
| ArgText (text : string).

(** [msg.id]: the number the client gave, or the compound string the
    manager replaces it with. *)
Inductive js_id : Type :=
| IdNumber (n : Z)
| IdString (s : string).

(** A message of a client: [id], [args] when present, [binary_length] when
    present, the truthiness of [subscribe], and the rest. *)
Record request : Type := {
  req_id : js_id;
  req_args : option (list js_arg);
  req_binary_length : option nat;
  req_subscribe : bool;
  req_body : string
}.

Definition set_req_id (id : js_id) (msg : request) : request :=
  {| req_id := id; req_args := req_args msg;
     req_binary_length := req_binary_length msg;
     req_subscribe := req_subscribe msg; req_body := req_body msg |}.

Definition set_req_args (args : option (list js_arg)) (msg : request) : request :=
  {| req_id := req_id msg; req_args := args;
     req_binary_length := req_binary_length msg;
     req_subscribe := req_subscribe msg; req_body := req_body msg |}.

Definition set_req_binary_length (len : option nat) (msg : request) : request :=
  {| req_id := req_id msg; req_args := req_args msg;
     req_binary_length := len;
     req_subscribe := req_subscribe msg; req_body := req_body msg |}.

(** What [JSON.parse(JSON.stringify(msg))] gives back: an [ArrayBuffer] has
    no enumerable property and comes back as the empty object. *)
Definition json_arg (arg : js_arg) : js_arg :=
  match arg with
  | ArgBuffer _ => ArgJson "{}"
  | _ => arg
  end.

Definition json_round_trip (msg : request) : request :=
  set_req_args ((λ args : list js_arg, json_arg <$> args) <$> req_args msg) msg.

(** A frame a client sends: the text ping, a text with what [JSON.parse]
    makes of it ([None] when it throws), or a binary. *)
Inductive client_frame : Type :=
| PingFrame
| RequestFrame (text : string) (parsed : option request)
| DataFrame (binary : list byte).

(** [WebSocketClient.send(msg)]: the frames handed to the socket;
    [stringify] is [JSON.stringify]. *)
Definition send (stringify : request → string) (msg : request)
    : list client_frame :=
  match req_args msg with
  | Some (ArgBuffer binary :: _) =>
      let pre_msg := set_req_binary_length (Some (length binary)) msg in
      [RequestFrame (stringify pre_msg) (Some (json_round_trip pre_msg));
       DataFrame binary]
  | _ => [RequestFrame (stringify msg) (Some (json_round_trip msg))]
  end.

(** ** The manager and its sockets *)

(** What the manager hands to [ws.send]: the text pong, a message (its [id]
    is [undefined] when the id map has no entry for it), or a chunk. *)
Inductive server_frame : Type :=
| SentPong
| SentMessage (id : option js_id) (binary_length : option nat)
              (port_id : option Z) (body : string)
| SentBinary (binary : list byte).

(** A socket: the fields the manager reads and writes, and the frames
    handed to its [send], oldest first. *)
Record socket : Type := {
  isAlive : bool;
  readyState : nat;
  sent : list server_frame
}.

(** A timer [_post_chunked] has set: the arguments of the call to come. *)
Record timer : Type := {
  timer_ws : nat;
  timer_binary : list byte;
  timer_start : nat;
  timer_end : nat;
  timer_length : nat
}.

(** The manager.  A socket is known by its [ws.id]; [requests] keeps the
    socket and the message of a request under the compound id;
    [timers] holds the callbacks handed to [setTimeout], in the order
    they were set. *)
Record server : Type := {
  chunk_size : nat;
  _pending_binary : option request;
  requests_id_map : gmap string js_id;
  requests : gmap string (nat * request);
  sockets : nat → socket;
  timers : list timer
}.

Definition set_pending_binary (pending : option request) (s : server) : server :=
  {| chunk_size := chunk_size s; _pending_binary := pending;
     requests_id_map := requests_id_map s; requests := requests s;
     sockets := sockets s; timers := timers s |}.

Definition set_requests_id_map (map : gmap string js_id) (s : server) : server :=
  {| chunk_size := chunk_size s; _pending_binary := _pending_binary s;
     requests_id_map := map; requests := requests s;
     sockets := sockets s; timers := timers s |}.

Definition set_requests (reqs : gmap string (nat * request)) (s : server)
    : server :=
  {| chunk_size := chunk_size s; _pending_binary := _pending_binary s;
     requests_id_map := requests_id_map s; requests := reqs;
     sockets := sockets s; timers := timers s |}.

Definition set_socket (ws : nat) (sock : socket) (s : server) : server :=
  {| chunk_size := chunk_size s; _pending_binary := _pending_binary s;
     requests_id_map := requests_id_map s; requests := requests s;
     sockets := λ id, if bool_decide (id = ws) then sock else sockets s id;
     timers := timers s |}.

Definition set_timers (ts : list timer) (s : server) : server :=
  {| chunk_size := chunk_size s; _pending_binary := _pending_binary s;
     requests_id_map := requests_id_map s; requests := requests s;
     sockets := sockets s; timers := ts |}.

(** [ws.isAlive = true] *)
Definition mark_alive (ws : nat) (s : server) : server :=
  set_socket ws {| isAlive := true;
                   readyState := readyState (sockets s ws);
                   sent := sent (sockets s ws) |} s.

(** [ws.send(frame)] *)
Definition ws_send (ws : nat) (frame : server_frame) (s : server) : server :=
  set_socket ws {| isAlive := isAlive (sockets s ws);
                   readyState := readyState (sockets s ws);
                   sent := sent (sockets s ws) ++ [frame] |} s.

(** The text of an id inside a template string. *)
Definition id_text (id : js_id) : string :=
  match id with
  | IdNumber n => pretty n
  | IdString s => s
  end.

(** The compound id of a request, made of the id of the message and of the
    id of the socket. *)
Definition compound_id (id : js_id) (ws : nat) : string :=
  id_text id +:+ "/" +:+ pretty ws.

(** What the handler does besides changing the manager: calls of
    [process(msg, ws.id)]. *)
Inductive effect : Type :=
| Process (msg : request) (client_id : nat).

(** The [try] block of the handler. *)
Definition dispatch (ws : nat) (msg : request) (s : server)
    : server * list effect :=
  let compoundId := compound_id (req_id msg) ws in
  let s := set_requests_id_map (<[compoundId := req_id msg]> (requests_id_map s)) s in
  let msg := set_req_id (IdString compoundId) msg in
  let s := set_requests (<[compoundId := (ws, msg)]> (requests s)) s in
  (s, [Process msg ws]).

(** The frame as the value the handler stores in [args]. *)
Definition frame_data (frame : client_frame) : js_arg :=
  match frame with
  | DataFrame binary => ArgBuffer binary
  | RequestFrame text _ => ArgText text
  | PingFrame => ArgText "ping"
  end.

(** The handler [add_connection] installs for the messages of the socket
    [ws]: the manager after it, and the calls of [process] it made or the
    error it threw. *)
Definition on_message (ws : nat) (frame : client_frame) (s : server)
    : server * WebSocket.js_result (list effect) :=
  let s := mark_alive ws s in
  match frame with
  | PingFrame => (ws_send ws SentPong s, WebSocket.Done [])
  | _ =>
      match _pending_binary s with
      | Some msg =>
          let binary := frame_data frame in
          let new_args :=
            match req_args msg with
            | Some args =>
                if bool_decide (1 < length args) then [binary] ++ drop 1 args
                else [binary]
            | None => [binary]
            end in
          let msg := set_req_binary_length None
                       (set_req_args (Some new_args) msg) in
          let s := set_pending_binary None s in
          let '(s, effects) := dispatch ws msg s in
          (s, WebSocket.Done effects)
      | None =>
          match frame with
          | RequestFrame _ (Some msg) =>
              if WebSocket.truthy_length (req_binary_length msg)
              then (set_pending_binary (Some msg) s, WebSocket.Done [])
              else let '(s, effects) := dispatch ws msg s in
                   (s, WebSocket.Done effects)
          | _ => (s, WebSocket.Throw "SyntaxError: JSON.parse")
          end
      end
  end.

(** The handler run over the frames that arrive, each with its socket, up
    to the first frame on which it throws. *)
Fixpoint on_messages (frames : list (nat * client_frame)) (s : server)
    : server * WebSocket.js_result (list effect) :=
  match frames with
  | [] => (s, WebSocket.Done [])
  | (ws, frame) :: rest =>
      match on_message ws frame s with
      | (s, WebSocket.Throw e) => (s, WebSocket.Throw e)
      | (s, WebSocket.Done effects) =>
          match on_messages rest s with
          | (s, WebSocket.Throw e) => (s, WebSocket.Throw e)
          | (s, WebSocket.Done effects') =>
              (s, WebSocket.Done (effects ++ effects'))
          end
      end
  end.

(** ** Posting *)

(** A message the server posts: the compound id of the request it answers,
    [data.port_id] when present, and the rest. *)
Record response : Type := {
  resp_id : string;
  resp_port_id : option Z;
  resp_body : string
}.

(** One call of [_post_chunked(request, binary, start, end, length)]: a
    chunk is sent and the next call is left in a timer. *)
Definition _post_chunked (ws : nat) (binary : list byte)
    (start end_ length : nat) (s : server) : server :=
  if bool_decide (start < length) then
    let end_ := start + chunk_size s in
    let end_ := if bool_decide (length < end_) then length else end_ in
    let s := ws_send ws (SentBinary (WebSocket.slice binary start end_)) s in
    let start := end_ in
    set_timers (timers s ++ [{| timer_ws := ws; timer_binary := binary;
                                timer_start := start; timer_end := end_;
                                timer_length := length |}]) s
  else s.

(** The oldest timer fires. *)
Definition run_timer (s : server) : server :=
  match timers s with
  | [] => s
  | t :: rest =>
      _post_chunked (timer_ws t) (timer_binary t) (timer_start t)
                    (timer_end t) (timer_length t) (set_timers rest s)
  end.

Fixpoint run_timers (n : nat) (s : server) : server :=
  match n with
  | 0 => s
  | S n => run_timers n (run_timer s)
  end.

(** The two sends of [post]: the message under the id the client gave,
    alone or with its [binary_length] and the first call of
    [_post_chunked]. *)
Definition post_send (ws : nat) (msg : response)
    (transferable : option (list byte)) (s : server) : server :=
  let msg_id := requests_id_map s !! resp_id msg in
  match transferable with
  | Some binary_msg =>
      let s := ws_send ws (SentMessage msg_id (Some (length binary_msg))
                             (resp_port_id msg) (resp_body msg)) s in
      _post_chunked ws binary_msg 0 (chunk_size s) (length binary_msg) s
  | None =>
      ws_send ws (SentMessage msg_id None (resp_port_id msg) (resp_body msg)) s
  end.

(** The end of [post]: a request that does not subscribe is forgotten. *)
Definition post_forget (id : string) (req_msg : request) (s : server) : server :=
  if req_subscribe req_msg then s
  else set_requests (delete id (requests s))
         (set_requests_id_map (delete id (requests_id_map s)) s).

(** [post(msg, transferable)] *)
Definition post (msg : response) (transferable : option (list byte))
    (s : server) : server * WebSocket.js_result unit :=
  match requests s !! resp_id msg with
  | None =>
      (s, WebSocket.Throw "TypeError: cannot read properties of undefined")
  | Some (ws, req_msg) =>
      let id := resp_id msg in
      if bool_decide (1 < readyState (sockets s ws)) then
        (set_requests (delete id (requests s)) s,
         WebSocket.Throw "Connection closed")
      else
        (post_forget id req_msg (post_send ws msg transferable s),
         WebSocket.Done ())
  end.

(** ** Vocabulary of the statements *)

(** The frame as the client of module [WebSocket] reads it; a message
    whose id is not a number has no counterpart there. *)
Definition to_ws_frame (frame : server_frame) : option WebSocket.ws_frame :=
  match frame with
  | SentPong => Some WebSocket.PongFrame
  | SentBinary binary => Some (WebSocket.BinaryFrame binary)
  | SentMessage (Some (IdNumber n)) binary_length port_id body =>
      Some (WebSocket.TextFrame
              {| WebSocket.msg_id := n;
                 WebSocket.msg_binary_length := binary_length;
                 WebSocket.msg_port_id := port_id;
                 WebSocket.msg_body := body |})
  | SentMessage _ _ _ _ => None
  end.

(** Every request the manager keeps has its id in the id map. *)
Definition requests_have_ids (s : server) : Prop :=
  ∀ id, is_Some (requests s !! id) → is_Some (requests_id_map s !! id).

(** The character that separates the two parts of a compound id. *)
Definition slash : Ascii.ascii :=
  Ascii.Ascii true true true true false true false false.

(** A text without that character. *)
Fixpoint no_slash (s : string) : bool :=
  match s with
  | EmptyString => true
  | String a s => negb (Ascii.eqb a slash) && no_slash s
  end.

(** A manager with no request, no timer and open sockets. *)
Definition new_server (chunk_size : nat) : server := {|
  chunk_size := chunk_size;
  _pending_binary := None;
  requests_id_map := ∅;
  requests := ∅;
  sockets := λ _, {| isAlive := true; readyState := 1; sent := [] |};
  timers := []
|}.

(** Requests and answers to run the manager on. *)
Definition example_request (n : Z) (args : option (list js_arg)) : request :=
  {| req_id := IdNumber n; req_args := args; req_binary_length := None;
     req_subscribe := false; req_body := "to_arrow" |}.

Definition example_answer (n : Z) (ws : nat) : response :=
  {| resp_id := compound_id (IdNumber n) ws; resp_port_id := None;
     resp_body := "arrow" |}.

(** The manager, chunk size 2, after the requests 7 and 8 arrived on the
    socket 0. *)
Definition example_server : server :=
  (on_messages [(0, RequestFrame "7" (Some (example_request 7 None)));
                (0, RequestFrame "8" (Some (example_request 8 None)))]
               (new_server 2)).1.

(** The same manager with the socket 0 closed. *)
Definition example_closed_server : server :=
  set_socket 0 {| isAlive := false; readyState := 3; sent := [] |}
             example_server.

End Connections.

(** * Properties of the unit context *)

Module CtxUnitProps.
Import CtxUnit.

Section context_unit.
Context {t_tscalar : Type} {eq_dec : EqDecision t_tscalar}
  {countable : Countable t_tscalar} {ops : Scalar t_tscalar}
  {symtable : SymTable t_tscalar}.
Implicit Types (c : t_ctxunit t_tscalar) (flattened : t_data_table t_tscalar).
Implicit Types (k pkey : t_tscalar).

(** *** The setters commute with the projections *)

Lemma set_delta_pkeys_twice s s' c :
  set_delta_pkeys s (set_delta_pkeys s' c) = set_delta_pkeys s c.
Proof. reflexivity. Qed.

Lemma set_delta_pkeys_same c : set_delta_pkeys (m_delta_pkeys c) c = c.
Proof. by destruct c. Qed.

Lemma add_delta_pkey_comm k1 k2 c :
  add_delta_pkey k1 (add_delta_pkey k2 c) = add_delta_pkey k2 (add_delta_pkey k1 c).
Proof.
  unfold add_delta_pkey, set_delta_pkeys; simpl. f_equal. set_solver.
Qed.

Lemma add_delta_pkey_idemp k c :
  add_delta_pkey k (add_delta_pkey k c) = add_delta_pkey k c.
Proof.
  unfold add_delta_pkey, set_delta_pkeys; simpl. f_equal. set_solver.
Qed.

(** *** step_begin *)

(** C10.  For an initialised context [step_begin] empties the delta key set
    and resets the rows-changed and columns-changed flags, and leaves every
    other member alone, the has-delta flag among them; [has_deltas] answers
    the same before and after; on a context that was never initialised
    [step_begin] changes nothing. *)
Theorem step_begin_frame c :
  has_deltas (step_begin c) = has_deltas c
  ∧ (m_init c = true →
       m_delta_pkeys (step_begin c) = ∅
       ∧ m_rows_changed (step_begin c) = false
       ∧ m_columns_changed (step_begin c) = false
       ∧ m_has_delta (step_begin c) = m_has_delta c
       ∧ m_init (step_begin c) = m_init c
       ∧ m_schema (step_begin c) = m_schema c
       ∧ m_gstate (step_begin c) = m_gstate c)
  ∧ (m_init c = false → step_begin c = c).
Proof.
  unfold step_begin, has_deltas.
  destruct (m_init c) eqn:Hinit; simpl; repeat split; congruence.
Qed.

(** *** notify, first batch *)

Lemma notify_first_fold flattened c :
  foldl (λ c row, add_delta_pkey (get_interned_tscalar (psp_pkey row)) c)
        c flattened
  = set_delta_pkeys (flattened_pkeys flattened ∪ m_delta_pkeys c) c.
Proof.
  revert c. induction flattened as [|row rest IH]; intros c; simpl.
  - unfold flattened_pkeys; simpl.
    rewrite (left_id_L ∅ (∪)). by rewrite set_delta_pkeys_same.
  - rewrite IH. unfold add_delta_pkey, flattened_pkeys, set_delta_pkeys; simpl.
    f_equal. set_solver.
Qed.

Lemma notify_first_tracks_every_key_pkeys c flattened :
  m_delta_pkeys (notify_first c flattened)
  = flattened_pkeys flattened ∪ m_delta_pkeys c.
Proof. unfold notify_first. by rewrite notify_first_fold. Qed.

(** C4.  The one-argument [notify] adds the interned key of every row of
    the flattened table to the delta key set (and nothing else), and
    [has_deltas] is true afterwards, whatever the table, the empty one
    included. *)
Theorem notify_first_tracks_every_key c flattened :
  has_deltas (notify_first c flattened) = true
  ∧ has_deltas (notify_first c []) = true
  ∧ m_delta_pkeys (notify_first c flattened)
    = flattened_pkeys flattened ∪ m_delta_pkeys c
  ∧ Forall (λ row, get_interned_tscalar (psp_pkey row)
                     ∈ m_delta_pkeys (notify_first c flattened)) flattened.
Proof.
  unfold notify_first. rewrite notify_first_fold. simpl.
  repeat split.
  apply Forall_forall. intros row Hrow.
  apply elem_of_union_l. unfold flattened_pkeys.
  apply elem_of_list_to_set, list_elem_of_fmap. eauto.
Qed.

(** *** notify, later batches *)

Lemma notify_rows_spec flattened c d :
  notify_rows flattened c d =
    if forallb (λ row, recognized_op (psp_op row)) flattened
    then Returned (set_delta_pkeys (flattened_pkeys flattened ∪ m_delta_pkeys c) c,
                   d || existsb (λ row, is_delete (psp_op row)) flattened)
    else Aborted "Unexpected OP".
Proof.
  revert c d. induction flattened as [|row rest IH]; intros c d; simpl.
  - unfold flattened_pkeys; simpl.
    rewrite (left_id_L ∅ (∪)), set_delta_pkeys_same. by rewrite orb_false_r.
  - destruct (psp_op row) eqn:Hop; simpl; try done.
    + rewrite IH. destruct (forallb _ rest); [|done].
      unfold add_delta_pkey, flattened_pkeys, set_delta_pkeys; simpl.
      do 3 f_equal. set_solver.
    + rewrite IH. destruct (forallb _ rest); [|done].
      unfold add_delta_pkey, flattened_pkeys, set_delta_pkeys; simpl.
      rewrite orb_true_r. do 3 f_equal. set_solver.
Qed.

(** C2, as the code has it.  The six-argument [notify] has a case for the
    tags INSERT and DELETE only.  When every row of the flattened table
    carries one of these two, the call returns, the interned key of every
    row has been added to the delta key set, and the has-delta flag tells
    whether the set is non-empty or a DELETE was met; when some row carries
    any other tag, the call aborts the process with "Unexpected OP". *)
Theorem notify_classifies_insert_delete
    c flattened (delta prev curr transitions existed : t_data_table t_tscalar) :
  if forallb (λ row, recognized_op (psp_op row)) flattened
  then ∃ c',
      notify c flattened delta prev curr transitions existed = Returned c'
      ∧ m_delta_pkeys c' = flattened_pkeys flattened ∪ m_delta_pkeys c
      ∧ Forall (λ row, get_interned_tscalar (psp_pkey row) ∈ m_delta_pkeys c')
               flattened
      ∧ m_has_delta c'
        = (bool_decide (0 < size (m_delta_pkeys c'))
           || existsb (λ row, is_delete (psp_op row)) flattened)
  else notify c flattened delta prev curr transitions existed
       = Aborted "Unexpected OP".
Proof.
  unfold notify. rewrite notify_rows_spec.
  destruct (forallb _ flattened); [|done].
  eexists. split; [reflexivity|]. simpl. repeat split.
  apply Forall_forall. intros row Hrow.
  apply elem_of_union_l, elem_of_list_to_set, list_elem_of_fmap. eauto.
Qed.

(** C3.  When the flattened table holds a row tagged DELETE, the
    six-argument [notify] either returns a context for which [has_deltas]
    is true, whatever the delta key set held before, or aborts, and it
    aborts only on a table that holds a tag it has no case for. *)
Theorem notify_delete_forces_has_deltas
    c flattened (delta prev curr transitions existed : t_data_table t_tscalar) :
  existsb (λ row, is_delete (psp_op row)) flattened = true →
  match notify c flattened delta prev curr transitions existed with
  | Returned c' =>
      has_deltas c' = true
      ∧ forallb (λ row, recognized_op (psp_op row)) flattened = true
  | Aborted _ => forallb (λ row, recognized_op (psp_op row)) flattened = false
  | Thrown _ => False
  end.
Proof.
  intros Hdel. unfold notify. rewrite notify_rows_spec.
  destruct (forallb _ flattened); [|done].
  simpl. unfold has_deltas; simpl. rewrite Hdel. by rewrite orb_true_r.
Qed.

(** *** The delta key set holds a key once *)

Lemma occurrences_NoDup k (keys : list t_tscalar) :
  NoDup keys → k ∈ keys → occurrences k keys = 1.
Proof.
  unfold occurrences. induction 1 as [|x keys Hx Hnd IH]; intros Hk.
  - by apply elem_of_nil in Hk.
  - rewrite filter_cons. destruct (decide (x = k)) as [->|Hne].
    + simpl. f_equal. apply length_zero_iff_nil.
      destruct (filter (λ x, x = k) keys) as [|y rest] eqn:Hf; [done|].
      assert (y ∈ filter (λ x, x = k) keys) as Hy by (rewrite Hf; left).
      apply list_elem_of_filter in Hy as [-> Hy]. done.
    + apply IH. apply elem_of_cons in Hk as [->|Hk]; done.
Qed.

Lemma add_delta_pkey_twice_once k c :
  occurrences k (delta_pkey_vector (add_delta_pkey k (add_delta_pkey k c))) = 1.
Proof.
  apply occurrences_NoDup; [apply NoDup_elements|].
  apply elem_of_elements. unfold get_delta_pkeys; simpl. set_solver.
Qed.

Lemma flattened_pkeys_app flattened1 flattened2 :
  flattened_pkeys (flattened1 ++ flattened2)
  = flattened_pkeys flattened1 ∪ flattened_pkeys flattened2.
Proof. unfold flattened_pkeys. rewrite fmap_app. apply list_to_set_app_L. Qed.

Lemma run_notify_pkeys c call c' :
  run_notify c call = Returned c' →
  m_delta_pkeys c' = flattened_pkeys (call_flattened call) ∪ m_delta_pkeys c.
Proof.
  destruct call as [flattened|flattened delta prev curr transitions existed];
    simpl; intros Hrun.
  - injection Hrun as <-. apply notify_first_tracks_every_key_pkeys.
  - pose proof (notify_rows_spec flattened c false) as Hrows.
    unfold notify in Hrun. rewrite Hrows in Hrun.
    destruct (forallb _ flattened); [|done].
    simpl in Hrun. injection Hrun as <-. reflexivity.
Qed.

Lemma run_notifies_pkeys calls c c' :
  run_notifies c calls = Returned c' →
  m_delta_pkeys c'
  = flattened_pkeys (concat (call_flattened <$> calls)) ∪ m_delta_pkeys c.
Proof.
  revert c. induction calls as [|call rest IH]; intros c; simpl.
  - intros [= <-]. unfold flattened_pkeys; simpl. by rewrite (left_id_L ∅ (∪)).
  - destruct (run_notify c call) as [c1| |] eqn:Hcall; simpl; try done.
    intros Hrest. rewrite (IH _ Hrest), (run_notify_pkeys _ _ _ Hcall).
    rewrite flattened_pkeys_app. set_solver.
Qed.

(** C7.  After any run of [notify] calls that returns, the key sequence
    [get_row_delta] copies out of the delta key set has no duplicate, its
    length is the row count of the delta, and the interned key of every row
    of every flattened table of the run occurs in it exactly once, however
    often and in whatever order the rows added it. *)
Theorem delta_keys_collapse_duplicates c calls c' :
  run_notifies c calls = Returned c' →
  NoDup (delta_pkey_vector c')
  ∧ delta_num_rows (get_row_delta c').1 = length (delta_pkey_vector c')
  ∧ Forall (λ row, occurrences (get_interned_tscalar (psp_pkey row))
                               (delta_pkey_vector c') = 1)
           (concat (call_flattened <$> calls)).
Proof.
  intros Hrun. split; [apply NoDup_elements|]. split; [reflexivity|].
  apply Forall_forall. intros row Hrow.
  apply occurrences_NoDup; [apply NoDup_elements|].
  apply elem_of_elements. unfold get_delta_pkeys.
  rewrite (run_notifies_pkeys _ _ _ Hrun).
  apply elem_of_union_l, elem_of_list_to_set, list_elem_of_fmap. eauto.
Qed.

(** *** Vectors filled cell by cell *)

Lemma foldl_insert_length {A R : Type} (f : R → nat) (g : R → A)
    (rows : list R) (vs : list A) :
  length (foldl (λ vs r, <[f r := g r]> vs) vs rows) = length vs.
Proof.
  revert vs. induction rows as [|r rows IH]; intros vs; simpl; [done|].
  by rewrite IH, length_insert.
Qed.

Lemma foldl_insert_hit {A R : Type} (f : R → nat) (g : R → A)
    (rows : list R) (vs : list A) (r : R) :
  r ∈ rows →
  (∀ r', r' ∈ rows → f r' = f r → g r' = g r) →
  f r < length vs →
  foldl (λ vs r, <[f r := g r]> vs) vs rows !! f r = Some (g r).
Proof.
  induction rows as [|r' rows IH] using rev_ind; intros Hr Hsame Hlt.
  - by apply elem_of_nil in Hr.
  - rewrite foldl_snoc. destruct (decide (f r' = f r)) as [Heq|Hne].
    + rewrite Heq, list_lookup_insert_eq
        by (by rewrite foldl_insert_length).
      f_equal. apply Hsame; [|done]. apply elem_of_app. right. left.
    + rewrite list_lookup_insert_ne by done.
      apply elem_of_app in Hr as [Hr|Hr].
      * apply IH; [done| |done]. intros r'' Hr''. apply Hsame.
        apply elem_of_app. by left.
      * apply list_elem_of_singleton in Hr as ->. done.
Qed.

Lemma foldl_nested_pairs {A R C : Type} (F : list A → R → C → list A)
    (rows : list R) (cols : list C) (vs : list A) :
  foldl (λ vs j, foldl (λ vs r, F vs r j) vs rows) vs cols
  = foldl (λ vs p, F vs p.1 p.2) vs (cols ≫= λ j, (λ r, (r, j)) <$> rows).
Proof.
  revert vs. induction cols as [|j cols IH]; intros vs; simpl; [done|].
  rewrite foldl_app, IH. f_equal.
  generalize vs. clear. induction rows as [|r rows IH]; intros vs; simpl; [done|].
  apply IH.
Qed.

(** Filling the cell [idx r c] with [cell r c], column after column and row
    after row within a column: the vector keeps its length, and each cell
    of the grid holds its value provided [idx] tells the cells apart. *)
Lemma fill_length {A R C : Type} (idx : R → C → nat) (cell : R → C → A)
    (rows : list R) (cols : list C) (vs : list A) :
  length (foldl (λ vs j, foldl (λ vs r, <[idx r j := cell r j]> vs) vs rows)
                vs cols) = length vs.
Proof.
  rewrite (foldl_nested_pairs (λ vs r j, <[idx r j := cell r j]> vs)).
  apply (foldl_insert_length (λ p, idx p.1 p.2) (λ p, cell p.1 p.2)).
Qed.

Lemma fill_lookup {A R C : Type} (idx : R → C → nat) (cell : R → C → A)
    (rows : list R) (cols : list C) (vs : list A) (r : R) (j : C) :
  r ∈ rows → j ∈ cols →
  (∀ r' j', r' ∈ rows → j' ∈ cols → idx r' j' = idx r j → r' = r ∧ j' = j) →
  idx r j < length vs →
  foldl (λ vs j, foldl (λ vs r, <[idx r j := cell r j]> vs) vs rows) vs cols
    !! idx r j = Some (cell r j).
Proof.
  intros Hr Hc Hinj Hlt.
  rewrite (foldl_nested_pairs (λ vs r j, <[idx r j := cell r j]> vs)).
  apply (foldl_insert_hit (λ p, idx p.1 p.2) (λ p, cell p.1 p.2) _ _ (r, j));
    [|simpl|done].
  - apply list_elem_of_bind. exists j. split; [|done].
    apply list_elem_of_fmap. eauto.
  - intros [r' j'] Hin Heq; simpl in *.
    apply list_elem_of_bind in Hin as (j'' & Hin & Hc'').
    apply list_elem_of_fmap in Hin as (r'' & [= -> ->] & Hr'').
    by destruct (Hinj _ _ Hr'' Hc'' Heq) as [-> ->].
Qed.


Lemma normalize_cell_normalized (v : t_tscalar) : normalized (normalize_cell v).
Proof.
  unfold normalized, normalize_cell.
  destruct (is_valid v) eqn:Hv; [by left|by right].
Qed.

(** *** The sanitised extents *)

Lemma sanitize_get_data_extents_bounds
    (nrows ncols start_row end_row start_col end_col : Z) :
  (0 ≤ nrows)%Z → (0 ≤ ncols)%Z →
  let ext := sanitize_get_data_extents
               nrows ncols start_row end_row start_col end_col in
  (0 ≤ m_srow ext ≤ m_erow ext)%Z ∧ (m_erow ext ≤ nrows)%Z
  ∧ (0 ≤ m_scol ext ≤ m_ecol ext)%Z ∧ (m_ecol ext ≤ ncols)%Z.
Proof. unfold sanitize_get_data_extents; simpl. lia. Qed.

Lemma get_row_count_nonneg c : (0 ≤ get_row_count c)%Z.
Proof. unfold get_row_count. lia. Qed.

Lemma get_column_count_nonneg c : (0 ≤ get_column_count c)%Z.
Proof. unfold get_column_count. lia. Qed.

Lemma vector_new_nonneg (n : Z) :
  (0 ≤ n)%Z → vector_new n = Returned (replicate (Z.to_nat n) scalar_default).
Proof. intros Hn. unfold vector_new. by rewrite bool_decide_eq_false_2 by lia. Qed.

(** The cells of column [cidx] as the range overload reads them. *)
Lemma get_data_columns_returns c start_row end_row ext num_rows stride cols values :
  (0 ≤ num_rows)%Z →
  get_data_columns c start_row end_row ext num_rows stride cols values
  = Returned
      (foldl (λ values cidx,
                get_data_store_range ext stride cidx
                  (read_column_range (m_gstate c)
                     (column_at (m_schema c) (Z.to_nat cidx)) start_row end_row
                     (replicate (Z.to_nat num_rows) scalar_default))
                  values)
             values cols).
Proof.
  intros Hn. revert values.
  induction cols as [|cidx cols IH]; intros values; simpl; [done|].
  rewrite vector_new_nonneg by done. simpl. apply IH.
Qed.

(** *** The blocks of get_data *)

Lemma grid_index_inj (stride r j r' j' : nat) :
  j < stride → j' < stride →
  r' * stride + j' = r * stride + j → r' = r ∧ j' = j.
Proof.
  intros Hj Hj' Heq. assert (r' = r) as -> by nia. lia.
Qed.

Lemma grid_index_cover (stride n i : nat) :
  i < n * stride → ∃ r j, r < n ∧ j < stride ∧ i = r * stride + j.
Proof.
  intros Hi. assert (stride ≠ 0) by lia.
  exists (i / stride), (i `mod` stride).
  pose proof (Nat.div_mod_eq i stride).
  pose proof (Nat.mod_upper_bound i stride).
  split; [|lia]. apply Nat.Div0.div_lt_upper_bound. lia.
Qed.

(** The loops of the two sparse overloads, for any way [out] of reading a
    column: a block of [n] rows of [stride] cells, each one normalised. *)
Lemma get_data_store_block (n stride : nat) (out : nat → list t_tscalar) :
  let values :=
    foldl (λ values cidx, get_data_store n stride cidx (out cidx) values)
          (replicate (n * stride) scalar_default) (seq 0 stride) in
  length values = n * stride
  ∧ (∀ ridx cidx, ridx < n → cidx < stride →
       values !! (ridx * stride + cidx)
       = Some (normalize_cell (vector_at (out cidx) ridx)))
  ∧ Forall normalized values.
Proof.
  intros values.
  assert (length values = n * stride) as Hlen.
  { unfold values, get_data_store.
    rewrite (fill_length (λ ridx cidx, ridx * stride + cidx)
               (λ ridx cidx, normalize_cell (vector_at (out cidx) ridx))).
    apply length_replicate. }
  assert (∀ ridx cidx, ridx < n → cidx < stride →
            values !! (ridx * stride + cidx)
            = Some (normalize_cell (vector_at (out cidx) ridx))) as Hcell.
  { intros ridx cidx Hr Hj. unfold values, get_data_store.
    apply (fill_lookup (λ ridx cidx, ridx * stride + cidx)
             (λ ridx cidx, normalize_cell (vector_at (out cidx) ridx))).
    - apply elem_of_seq. lia.
    - apply elem_of_seq. lia.
    - intros r' j' _ Hj'%elem_of_seq Heq. apply (grid_index_inj stride); lia.
    - rewrite length_replicate. nia. }
  repeat split; [done..|].
  apply Forall_lookup. intros i v Hi.
  destruct (grid_index_cover stride n i) as (ridx & cidx & Hr & Hj & ->).
  { rewrite <- Hlen. by eapply lookup_lt_Some. }
  rewrite Hcell in Hi by done. injection Hi as <-.
  apply normalize_cell_normalized.
Qed.

(** The loops of the range overload on sanitised extents. *)
Lemma get_data_store_range_block (ext : t_get_data_extents)
    (out : Z → list t_tscalar) :
  (0 ≤ m_srow ext ≤ m_erow ext)%Z → (0 ≤ m_scol ext ≤ m_ecol ext)%Z →
  let num_rows := (m_erow ext - m_srow ext)%Z in
  let stride := (m_ecol ext - m_scol ext)%Z in
  let values :=
    foldl (λ values cidx, get_data_store_range ext stride cidx (out cidx) values)
          (replicate (Z.to_nat (num_rows * stride)) scalar_default)
          (seqZ (m_scol ext) stride) in
  Z.of_nat (length values) = (num_rows * stride)%Z
  ∧ (∀ ridx cidx,
       (m_srow ext ≤ ridx < m_erow ext)%Z → (m_scol ext ≤ cidx < m_ecol ext)%Z →
       values !! Z.to_nat ((ridx - m_srow ext) * stride + (cidx - m_scol ext))
       = Some (normalize_cell
                 (vector_at (out cidx) (Z.to_nat (ridx - m_srow ext)))))
  ∧ Forall normalized values.
Proof.
  intros Hrows Hcols num_rows stride values.
  set (idx := λ ridx cidx : Z,
         Z.to_nat ((ridx - m_srow ext) * stride + (cidx - m_scol ext))).
  set (cell := λ ridx cidx : Z,
         normalize_cell (vector_at (out cidx) (Z.to_nat (ridx - m_srow ext)))).
  assert (length values = Z.to_nat (num_rows * stride)) as Hlen.
  { unfold values, get_data_store_range.
    rewrite (fill_length idx cell). apply length_replicate. }
  assert (∀ ridx cidx,
            (m_srow ext ≤ ridx < m_erow ext)%Z →
            (m_scol ext ≤ cidx < m_ecol ext)%Z →
            values !! idx ridx cidx = Some (cell ridx cidx)) as Hcell.
  { intros ridx cidx Hr Hj. unfold values, get_data_store_range.
    apply (fill_lookup idx cell).
    - apply elem_of_seqZ. lia.
    - apply elem_of_seqZ. lia.
    - intros r' j' Hr'%elem_of_seqZ Hj'%elem_of_seqZ Heq. unfold idx in Heq.
      assert ((r' - m_srow ext) * stride + (j' - m_scol ext)
              = (ridx - m_srow ext) * stride + (cidx - m_scol ext))%Z
        as Heq' by (unfold stride in *; nia).
      assert (r' - m_srow ext = ridx - m_srow ext)%Z
        by (unfold stride in *; nia).
      lia.
    - rewrite length_replicate. unfold idx, num_rows, stride. nia. }
  split; [rewrite Hlen; unfold num_rows, stride; nia|]. split; [done|].
  apply Forall_lookup. intros i v Hi.
  assert (i < Z.to_nat num_rows * Z.to_nat stride) as Hlt.
  { apply lookup_lt_Some in Hi. rewrite Hlen in Hi.
    unfold num_rows, stride in *. nia. }
  destruct (grid_index_cover _ _ _ Hlt) as (r & j & Hr & Hj & ->).
  assert (r * Z.to_nat stride + j
          = idx (m_srow ext + Z.of_nat r)%Z (m_scol ext + Z.of_nat j)%Z) as Hidx.
  { unfold idx, stride in *. nia. }
  rewrite Hidx, Hcell in Hi by (unfold num_rows, stride in *; lia).
  injection Hi as <-. apply normalize_cell_normalized.
Qed.

Lemma get_data_returns c start_row end_row start_col end_col :
  let ext := sanitize_get_data_extents (get_row_count c) (get_column_count c)
               start_row end_row start_col end_col in
  get_data c start_row end_row start_col end_col
  = Returned
      (foldl (λ values cidx,
                get_data_store_range ext (m_ecol ext - m_scol ext) cidx
                  (read_column_range (m_gstate c)
                     (column_at (m_schema c) (Z.to_nat cidx)) start_row end_row
                     (replicate (Z.to_nat (m_erow ext - m_srow ext))
                                scalar_default))
                  values)
             (replicate (Z.to_nat ((m_erow ext - m_srow ext)
                                   * (m_ecol ext - m_scol ext))) scalar_default)
             (seqZ (m_scol ext) (m_ecol ext - m_scol ext))).
Proof.
  intros ext.
  destruct (sanitize_get_data_extents_bounds (get_row_count c)
              (get_column_count c) start_row end_row start_col end_col
              (get_row_count_nonneg c) (get_column_count_nonneg c))
    as (Hr & _ & Hc & _).
  fold ext in Hr, Hc. unfold get_data. fold ext.
  rewrite vector_new_nonneg by nia. simpl.
  apply get_data_columns_returns. lia.
Qed.

(** C5.  Whatever the four arguments (negative, inverted, beyond the
    bounds), [get_data] returns a block and signals no error; the extents it
    works on satisfy 0 <= start <= end <= count for the rows and for the
    columns, so the block has between 0 and row-count rows of between 0 and
    column-count cells, and its length is their product. *)
Theorem get_data_sanitizes_ranges c (start_row end_row start_col end_col : Z) :
  let ext := sanitize_get_data_extents (get_row_count c) (get_column_count c)
               start_row end_row start_col end_col in
  let num_rows := (m_erow ext - m_srow ext)%Z in
  let stride := (m_ecol ext - m_scol ext)%Z in
  (0 ≤ m_srow ext ≤ m_erow ext)%Z ∧ (m_erow ext ≤ get_row_count c)%Z
  ∧ (0 ≤ m_scol ext ≤ m_ecol ext)%Z ∧ (m_ecol ext ≤ get_column_count c)%Z
  ∧ (0 ≤ num_rows ≤ get_row_count c)%Z
  ∧ (0 ≤ stride ≤ get_column_count c)%Z
  ∧ ∃ values,
      get_data c start_row end_row start_col end_col = Returned values
      ∧ Z.of_nat (length values) = (num_rows * stride)%Z.
Proof.
  intros ext num_rows stride.
  destruct (sanitize_get_data_extents_bounds (get_row_count c)
              (get_column_count c) start_row end_row start_col end_col
              (get_row_count_nonneg c) (get_column_count_nonneg c))
    as (Hr & Hr' & Hc & Hc').
  fold ext in Hr, Hr', Hc, Hc'.
  repeat (split; [unfold num_rows, stride; lia|]).
  eexists. split; [apply get_data_returns|].
  apply (get_data_store_range_block ext); done.
Qed.

(** C6.  In the block any overload of [get_data] returns (by range, by row
    index, by primary key), every cell is the value the master state holds
    for it when that value is valid and the "none" scalar when it is not:
    no cell of the block is an invalid scalar other than "none" itself. *)
Theorem get_data_replaces_invalid_cells c :
  (∀ start_row end_row start_col end_col : Z,
     let ext := sanitize_get_data_extents (get_row_count c) (get_column_count c)
                  start_row end_row start_col end_col in
     ∃ values,
       get_data c start_row end_row start_col end_col = Returned values
       ∧ Forall normalized values
       ∧ ∀ ridx cidx : Z,
           (m_srow ext ≤ ridx < m_erow ext)%Z →
           (m_scol ext ≤ cidx < m_ecol ext)%Z →
           values !! Z.to_nat ((ridx - m_srow ext) * (m_ecol ext - m_scol ext)
                               + (cidx - m_scol ext))
           = Some (normalize_cell
                     (stored_range c start_row end_row ext cidx ridx)))
  ∧ (∀ rows : list N,
       Forall normalized (get_data_rows c rows)
       ∧ ∀ ridx cidx : nat,
           ridx < length rows → cidx < Z.to_nat (get_column_count c) →
           get_data_rows c rows !! (ridx * Z.to_nat (get_column_count c) + cidx)
           = Some (normalize_cell (stored_rows c rows cidx ridx)))
  ∧ (∀ pkeys : list t_tscalar,
       Forall normalized (get_data_pkeys c pkeys)
       ∧ ∀ ridx cidx : nat,
           ridx < length pkeys → cidx < Z.to_nat (get_column_count c) →
           get_data_pkeys c pkeys !! (ridx * Z.to_nat (get_column_count c) + cidx)
           = Some (normalize_cell (stored_pkeys c pkeys cidx ridx))).
Proof.
  split; [|split].
  - intros start_row end_row start_col end_col ext.
    destruct (sanitize_get_data_extents_bounds (get_row_count c)
                (get_column_count c) start_row end_row start_col end_col
                (get_row_count_nonneg c) (get_column_count_nonneg c))
      as (Hr & _ & Hc & _).
    fold ext in Hr, Hc.
    eexists. split; [apply get_data_returns|]. fold ext.
    destruct (get_data_store_range_block ext
                (λ cidx, read_column_range (m_gstate c)
                           (column_at (m_schema c) (Z.to_nat cidx))
                           start_row end_row
                           (replicate (Z.to_nat (m_erow ext - m_srow ext))
                                      scalar_default)) Hr Hc)
      as (_ & Hcell & Hall).
    split; [exact Hall|]. intros ridx cidx Hridx Hcidx.
    apply (Hcell ridx cidx Hridx Hcidx).
  - intros rows.
    destruct (get_data_store_block (length rows) (Z.to_nat (get_column_count c))
                (λ cidx, read_column_rows (m_gstate c)
                           (column_at (m_schema c) cidx) rows
                           (replicate (length rows) scalar_default)))
      as (_ & Hcell & Hall).
    split; [exact Hall|exact Hcell].
  - intros pkeys.
    destruct (get_data_store_block (length pkeys) (Z.to_nat (get_column_count c))
                (λ cidx, read_column_pkeys (m_gstate c)
                           (column_at (m_schema c) cidx) pkeys
                           (replicate (length pkeys) scalar_default)))
      as (_ & Hcell & Hall).
    split; [exact Hall|exact Hcell].
Qed.

(** *** get_row_delta *)

Lemma get_data_pkeys_clear_deltas c pkeys :
  get_data_pkeys (clear_deltas c) pkeys = get_data_pkeys c pkeys.
Proof. reflexivity. Qed.

Lemma get_data_pkeys_nil c : get_data_pkeys c [] = [].
Proof.
  apply length_zero_iff_nil.
  destruct (get_data_store_block 0 (Z.to_nat (get_column_count c))
              (λ cidx, read_column_pkeys (m_gstate c)
                         (column_at (m_schema c) cidx) []
                         (replicate 0 scalar_default)))
    as (Hlen & _).
  exact Hlen.
Qed.

Lemma get_row_delta_after_step_begin c :
  m_init c = true →
  (get_row_delta (step_begin c)).1
  = {| rows_changed := false; delta_num_rows := 0; delta_data := [] |}.
Proof.
  intros Hinit. unfold get_row_delta, delta_pkey_vector, get_delta_pkeys.
  unfold step_begin. rewrite Hinit. simpl.
  rewrite elements_empty. simpl. by rewrite get_data_pkeys_nil.
Qed.

(** C1, as the code has it.  [get_row_delta] returns a delta built from the
    rows-changed flag and a copy of the delta key set, with the row data
    that [get_data] fetches for those keys; the call clears the has-delta
    flag and nothing else: the delta key set and the rows-changed flag are
    as before.  So a second call with nothing in between returns the very
    same delta.  It is [step_begin] that empties the set and resets the
    flag: on an initialised context, the delta read after [step_begin] has
    no row and its rows-changed flag is false. *)
Theorem get_row_delta_clears_flag_only c :
  rows_changed (get_row_delta c).1 = m_rows_changed c
  ∧ delta_num_rows (get_row_delta c).1 = size (m_delta_pkeys c)
  ∧ delta_data (get_row_delta c).1
    = get_data_pkeys c (elements (m_delta_pkeys c))
  ∧ has_deltas (get_row_delta c).2 = false
  ∧ (get_row_delta c).2 = set_has_delta false c
  ∧ m_delta_pkeys (get_row_delta c).2 = m_delta_pkeys c
  ∧ m_rows_changed (get_row_delta c).2 = m_rows_changed c
  ∧ (get_row_delta (get_row_delta c).2).1 = (get_row_delta c).1
  ∧ (m_init c = true →
       (get_row_delta (step_begin (get_row_delta c).2)).1
       = {| rows_changed := false; delta_num_rows := 0; delta_data := [] |}).
Proof.
  repeat (split; [reflexivity|]).
  intros Hinit. by apply get_row_delta_after_step_begin.
Qed.

(** ** Further properties of the unit context *)

(** *** What a run of notify calls leaves alone *)

Lemma run_notify_members c call c' :
  run_notify c call = Returned c' →
  c' = set_has_delta (m_has_delta c')
         (set_delta_pkeys
            (flattened_pkeys (call_flattened call) ∪ m_delta_pkeys c) c).
Proof.
  destruct call as [flattened|flattened delta prev curr transitions existed];
    simpl; intros Hrun.
  - injection Hrun as <-. unfold notify_first. by rewrite notify_first_fold.
  - unfold notify in Hrun. rewrite notify_rows_spec in Hrun.
    destruct (forallb _ flattened); [|done].
    simpl in Hrun. by injection Hrun as <-.
Qed.

Lemma get_data_columns_same_table c c' start_row end_row ext num_rows stride
    cols values :
  m_gstate c' = m_gstate c → m_schema c' = m_schema c →
  get_data_columns c' start_row end_row ext num_rows stride cols values
  = get_data_columns c start_row end_row ext num_rows stride cols values.
Proof.
  intros Hg Hs. revert values.
  induction cols as [|cidx cols IH]; intros values; simpl; [done|].
  rewrite Hg, Hs. destruct (vector_new num_rows); simpl; done.
Qed.

Lemma get_data_same_table c c' :
  m_gstate c' = m_gstate c → m_schema c' = m_schema c →
  (∀ start_row end_row start_col end_col,
     get_data c' start_row end_row start_col end_col
     = get_data c start_row end_row start_col end_col)
  ∧ (∀ rows, get_data_rows c' rows = get_data_rows c rows)
  ∧ (∀ pkeys, get_data_pkeys c' pkeys = get_data_pkeys c pkeys).
Proof.
  intros Hg Hs.
  split; [|destruct c, c'; simpl in *; subst; split; intros; reflexivity].
  intros. unfold get_data, get_row_count, get_column_count. rewrite Hg.
  destruct (vector_new _) as [values| |]; [|done..].
  by apply get_data_columns_same_table.
Qed.

Lemma run_notifies_members c calls c' :
  run_notifies c calls = Returned c' →
  m_init c' = m_init c ∧ m_schema c' = m_schema c
  ∧ m_gstate c' = m_gstate c ∧ m_rows_changed c' = m_rows_changed c
  ∧ m_columns_changed c' = m_columns_changed c
  ∧ m_delta_pkeys c ⊆ m_delta_pkeys c'.
Proof.
  revert c. induction calls as [|call rest IH]; intros c; simpl.
  - intros [= <-]. repeat split; done.
  - destruct (run_notify c call) as [c1| |] eqn:Hcall; simpl; try done.
    intros Hrest. destruct (IH _ Hrest) as (Hi & Hs & Hg & Hr & Hc & Hsub).
    rewrite (run_notify_members _ _ _ Hcall) in Hi, Hs, Hg, Hr, Hc, Hsub.
    simpl in *. repeat split; try done. set_solver.
Qed.

(** X1.  A run of [notify] calls that returns changes the delta key set and
    the has-delta flag only: the other members are as before, no key that
    was tracked is dropped, and every overload of [get_data] answers as
    before. *)
Theorem run_notifies_frame c calls c' :
  run_notifies c calls = Returned c' →
  m_init c' = m_init c
  ∧ m_schema c' = m_schema c
  ∧ m_gstate c' = m_gstate c
  ∧ m_rows_changed c' = m_rows_changed c
  ∧ m_columns_changed c' = m_columns_changed c
  ∧ m_delta_pkeys c ⊆ m_delta_pkeys c'
  ∧ (∀ start_row end_row start_col end_col,
       get_data c' start_row end_row start_col end_col
       = get_data c start_row end_row start_col end_col)
  ∧ (∀ rows, get_data_rows c' rows = get_data_rows c rows)
  ∧ (∀ pkeys, get_data_pkeys c' pkeys = get_data_pkeys c pkeys).
Proof.
  intros Hrun.
  destruct (run_notifies_members _ _ _ Hrun) as (Hi & Hs & Hg & Hr & Hc & Hsub).
  repeat (split; [done|]). by apply get_data_same_table.
Qed.

(** *** Order and repetition of the rows of a batch *)

Lemma forallb_perm {A} (f : A → bool) (l l' : list A) :
  l ≡ₚ l' → forallb f l = forallb f l'.
Proof.
  induction 1 as [|x l l' _ IH|x y l|l l' l'' _ IH1 _ IH2]; simpl.
  - done.
  - by rewrite IH.
  - by destruct (f x), (f y).
  - by rewrite IH1.
Qed.

Lemma existsb_perm {A} (f : A → bool) (l l' : list A) :
  l ≡ₚ l' → existsb f l = existsb f l'.
Proof.
  induction 1 as [|x l l' _ IH|x y l|l l' l'' _ IH1 _ IH2]; simpl.
  - done.
  - by rewrite IH.
  - by destruct (f x), (f y).
  - by rewrite IH1.
Qed.

Lemma flattened_pkeys_perm flattened flattened' :
  flattened ≡ₚ flattened' → flattened_pkeys flattened = flattened_pkeys flattened'.
Proof.
  intros Hperm. unfold flattened_pkeys.
  apply list_to_set_perm_L. by apply fmap_Permutation.
Qed.

Lemma notify_outcome c flattened
    (delta prev curr transitions existed : t_data_table t_tscalar) :
  notify c flattened delta prev curr transitions existed =
    if forallb (λ row, recognized_op (psp_op row)) flattened
    then Returned
           (set_has_delta
              (bool_decide
                 (0 < size (flattened_pkeys flattened ∪ m_delta_pkeys c))
               || existsb (λ row, is_delete (psp_op row)) flattened)
              (set_delta_pkeys (flattened_pkeys flattened ∪ m_delta_pkeys c) c))
    else Aborted "Unexpected OP".
Proof.
  unfold notify. rewrite notify_rows_spec.
  by destruct (forallb _ flattened).
Qed.

(** X2.  Both forms of [notify] depend on the rows of the flattened table
    up to their order only, and the six-argument form does not look at its
    five other tables: two calls on permuted flattened tables end alike
    (the same context, or the same abort). *)
Theorem notify_order_irrelevant c flattened flattened'
    (delta prev curr transitions existed : t_data_table t_tscalar)
    (delta' prev' curr' transitions' existed' : t_data_table t_tscalar) :
  flattened ≡ₚ flattened' →
  notify c flattened delta prev curr transitions existed
  = notify c flattened' delta' prev' curr' transitions' existed'
  ∧ notify_first c flattened = notify_first c flattened'.
Proof.
  intros Hperm. split.
  - rewrite !notify_outcome.
    rewrite (forallb_perm _ _ _ Hperm), (existsb_perm _ _ _ Hperm).
    by rewrite (flattened_pkeys_perm _ _ Hperm).
  - unfold notify_first. rewrite !notify_first_fold.
    by rewrite (flattened_pkeys_perm _ _ Hperm).
Qed.

(** X3.  Notifying the same batch a second time changes nothing: for both
    forms of [notify], two calls in a row with the same flattened table end
    as one call does. *)
Theorem notify_twice_same c flattened
    (delta prev curr transitions existed : t_data_table t_tscalar) :
  (notify c flattened delta prev curr transitions existed
     ≫= λ c', notify c' flattened delta prev curr transitions existed)
  = notify c flattened delta prev curr transitions existed
  ∧ notify_first (notify_first c flattened) flattened
    = notify_first c flattened.
Proof.
  split.
  - rewrite (notify_outcome c).
    destruct (forallb (λ row, recognized_op (psp_op row)) flattened) eqn:Hops;
      [|done].
    simpl. rewrite notify_outcome, Hops. simpl.
    unfold set_has_delta, set_delta_pkeys; simpl.
    replace (flattened_pkeys flattened
             ∪ (flattened_pkeys flattened ∪ m_delta_pkeys c))
      with (flattened_pkeys flattened ∪ m_delta_pkeys c) by set_solver.
    done.
  - unfold notify_first. rewrite !notify_first_fold.
    unfold set_has_delta, set_delta_pkeys; simpl. f_equal. set_solver.
Qed.

(** *** has_deltas after notify *)

Lemma flattened_pkeys_empty_iff flattened :
  flattened_pkeys flattened = ∅ ↔ flattened = [].
Proof.
  split; [|by intros ->].
  destruct flattened as [|row rest]; [done|].
  unfold flattened_pkeys; simpl. intros Hempty.
  assert (get_interned_tscalar (psp_pkey row) ∈ (∅ : gset t_tscalar)) as Hin
    by (rewrite <- Hempty; set_solver).
  by apply not_elem_of_empty in Hin.
Qed.

Lemma size_pos_iff (s : gset t_tscalar) : 0 < size s ↔ s ≠ ∅.
Proof.
  split.
  - intros Hpos ->. rewrite size_empty in Hpos. lia.
  - intros Hne. destruct (decide (size s = 0)) as [Hz|]; [|lia].
    apply size_empty_inv, leibniz_equiv in Hz. done.
Qed.

(** X4.  After a six-argument [notify] that returns, [has_deltas] is true
    exactly when the delta key set is not empty: a DELETE row adds its own
    key, so the delete flag never decides. *)
Theorem notify_has_deltas_iff_tracked c flattened
    (delta prev curr transitions existed : t_data_table t_tscalar) c' :
  notify c flattened delta prev curr transitions existed = Returned c' →
  has_deltas c' = true ↔ m_delta_pkeys c' ≠ ∅.
Proof.
  rewrite notify_outcome.
  destruct (forallb _ flattened); [|done]. intros [= <-].
  unfold has_deltas; simpl. rewrite orb_true_iff, bool_decide_eq_true.
  rewrite size_pos_iff. split; [|by left].
  intros [Hne|Hdel]; [done|].
  intros Hempty. apply existsb_exists in Hdel as (row & Hrow & _).
  assert (get_interned_tscalar (psp_pkey row) ∈ (∅ : gset t_tscalar)) as Hin.
  { rewrite <- Hempty. apply elem_of_union_l, elem_of_list_to_set.
    apply list_elem_of_fmap. exists row. split; [done|].
    by apply list_elem_of_In. }
  by apply not_elem_of_empty in Hin.
Qed.

(** X5.  Right after [step_begin] on an initialised context, the
    six-argument [notify] on a table of INSERT and DELETE rows tracks the
    keys of that table and nothing else, and leaves [has_deltas] true when
    the table has a row and false when it has none, whatever the flag was;
    the one-argument form leaves it true even then. *)
Theorem notify_after_step_begin c flattened
    (delta prev curr transitions existed : t_data_table t_tscalar) :
  m_init c = true →
  forallb (λ row, recognized_op (psp_op row)) flattened = true →
  ∃ c',
    notify (step_begin c) flattened delta prev curr transitions existed
    = Returned c'
    ∧ m_delta_pkeys c' = flattened_pkeys flattened
    ∧ has_deltas c' = bool_decide (flattened ≠ [])
    ∧ has_deltas (notify_first (step_begin c) []) = true.
Proof.
  intros Hinit Hops. rewrite notify_outcome, Hops.
  eexists. split; [reflexivity|].
  unfold step_begin, has_deltas. rewrite Hinit. simpl.
  rewrite (right_id_L ∅ (∪)). repeat split.
  destruct flattened as [|row rest] eqn:Hfl; [done|]. rewrite <- Hfl.
  rewrite (bool_decide_eq_true_2 (flattened ≠ [])) by (by rewrite Hfl).
  apply orb_true_iff. left. apply bool_decide_eq_true, size_pos_iff.
  rewrite flattened_pkeys_empty_iff. by rewrite Hfl.
Qed.

(** *** A whole update cycle *)

(** X6.  After [step_begin] on an initialised context and a run of [notify]
    calls that returns, [get_row_delta] reports the keys of that run and no
    other: its row count is the number of distinct interned keys of the
    rows notified, a key is in its key sequence exactly when some notified
    row carries it, and its rows-changed flag is false, since no form of
    [notify] sets it. *)
Theorem cycle_delta_is_the_keys_notified c calls c' :
  m_init c = true →
  run_notifies (step_begin c) calls = Returned c' →
  delta_num_rows (get_row_delta c').1
  = size (flattened_pkeys (concat (call_flattened <$> calls)))
  ∧ (∀ k, k ∈ delta_pkey_vector c'
          ↔ ∃ row, row ∈ concat (call_flattened <$> calls)
                   ∧ k = get_interned_tscalar (psp_pkey row))
  ∧ rows_changed (get_row_delta c').1 = false.
Proof.
  intros Hinit Hrun.
  pose proof (run_notifies_pkeys _ _ _ Hrun) as Hkeys.
  destruct (run_notifies_members _ _ _ Hrun) as (_ & _ & _ & Hrows & _).
  unfold step_begin in Hkeys, Hrows. rewrite Hinit in Hkeys, Hrows.
  simpl in Hkeys, Hrows. rewrite (right_id_L ∅ (∪)) in Hkeys.
  split; [|split].
  - simpl. unfold delta_pkey_vector, get_delta_pkeys. by rewrite Hkeys.
  - intros k. unfold delta_pkey_vector, get_delta_pkeys.
    rewrite elem_of_elements, Hkeys. unfold flattened_pkeys.
    rewrite elem_of_list_to_set, list_elem_of_fmap. naive_solver.
  - simpl. exact Hrows.
Qed.

(** *** The size of the sparse blocks *)

(** X7.  The blocks of the two sparse overloads of [get_data] hold one row
    of column-count cells for each index or key asked for, whatever
    [read_column] finds for it; so the data of a row delta holds that many
    cells for each of its rows. *)
Theorem get_data_sparse_block_size c :
  (∀ rows, length (get_data_rows c rows)
           = length rows * Z.to_nat (get_column_count c))
  ∧ (∀ pkeys, length (get_data_pkeys c pkeys)
              = length pkeys * Z.to_nat (get_column_count c))
  ∧ length (delta_data (get_row_delta c).1)
    = delta_num_rows (get_row_delta c).1 * Z.to_nat (get_column_count c).
Proof.
  assert (∀ pkeys, length (get_data_pkeys c pkeys)
                   = length pkeys * Z.to_nat (get_column_count c)) as Hpkeys.
  { intros pkeys.
    by destruct (get_data_store_block (length pkeys)
                   (Z.to_nat (get_column_count c))
                   (λ cidx, read_column_pkeys (m_gstate c)
                              (column_at (m_schema c) cidx) pkeys
                              (replicate (length pkeys) scalar_default)))
      as (Hlen & _). }
  split; [|split; [exact Hpkeys|apply Hpkeys]].
  intros rows.
  by destruct (get_data_store_block (length rows)
                 (Z.to_nat (get_column_count c))
                 (λ cidx, read_column_rows (m_gstate c)
                            (column_at (m_schema c) cidx) rows
                            (replicate (length rows) scalar_default)))
    as (Hlen & _).
Qed.

(** *** Column names *)

(** X8.  For an index in the range of [t_index] (the schema having fewer
    than 2^63 columns), [get_column_name] returns the name of the column at
    that index when there is one, and the empty string for any other index,
    a negative one included: it reads no name out of bounds. *)
Theorem get_column_name_bounds c (idx : Z) :
  (- 2 ^ 63 ≤ idx < 2 ^ 63)%Z →
  (Z.of_nat (length (m_schema c)) < 2 ^ 63)%Z →
  get_column_name c idx
  = if bool_decide (0 ≤ idx < Z.of_nat (length (get_column_names c)))%Z
    then default EmptyString (get_column_names c !! Z.to_nat idx)
    else EmptyString.
Proof.
  intros Hidx Hlen. unfold get_column_name, get_column_names, to_uindex.
  destruct (decide (0 ≤ idx)%Z) as [Hpos|Hneg].
  - rewrite Z.mod_small by lia.
    case_bool_decide; case_bool_decide; try lia; done.
  - replace (idx mod 2 ^ 64)%Z with (idx + 2 ^ 64)%Z.
    + rewrite bool_decide_eq_true_2 by lia.
      by rewrite bool_decide_eq_false_2 by lia.
    + symmetry. rewrite <- (Z.mod_add idx 1 (2 ^ 64)) by lia.
      apply Z.mod_small. lia.
Qed.

End context_unit.

(** *** The theorems on the concrete table *)

Lemma step_begin_frame_witness :
  (m_init (notify_first example_ctx [example_row "A" OP_INSERT]) = true
   ∧ m_delta_pkeys
       (step_begin (notify_first example_ctx [example_row "A" OP_INSERT])) = ∅
   ∧ has_deltas
       (step_begin (notify_first example_ctx [example_row "A" OP_INSERT])) = true)
  ∧ (m_init (set_init false example_ctx) = false
     ∧ step_begin (set_init false example_ctx) = set_init false example_ctx).
Proof.
  split.
  - split; [reflexivity|].
    destruct (step_begin_frame
                (notify_first example_ctx [example_row "A" OP_INSERT]))
      as (Hsame & Hinit & _).
    destruct (Hinit eq_refl) as (Hempty & _).
    split; [exact Hempty|]. rewrite Hsame. reflexivity.
  - split; [reflexivity|].
    destruct (step_begin_frame (set_init false example_ctx)) as (_ & _ & Hnot).
    exact (Hnot eq_refl).
Defined.

Lemma get_row_delta_clears_flag_only_witness :
  m_init example_ctx_after_insert = true
  ∧ delta_num_rows (get_row_delta example_ctx_after_insert).1 = 1
  ∧ (get_row_delta (get_row_delta example_ctx_after_insert).2).1
    = (get_row_delta example_ctx_after_insert).1
  ∧ (get_row_delta
       (step_begin (get_row_delta example_ctx_after_insert).2)).1
    = {| rows_changed := false; delta_num_rows := 0; delta_data := [] |}.
Proof.
  assert (m_init example_ctx_after_insert = true) as Hinit by reflexivity.
  destruct (get_row_delta_clears_flag_only example_ctx_after_insert)
    as (_ & Hsize & _ & _ & _ & _ & _ & Hagain & Hbegin).
  split; [exact Hinit|]. split; [rewrite Hsize; vm_compute; reflexivity|].
  split; [exact Hagain|exact (Hbegin Hinit)].
Defined.

Lemma notify_delete_forces_has_deltas_witness :
  existsb (λ row, is_delete (psp_op row))
          [example_row "A" OP_INSERT; example_row "B" OP_DELETE] = true
  ∧ match notify example_ctx
            [example_row "A" OP_INSERT; example_row "B" OP_DELETE]
            [] [] [] [] [] with
    | Returned c' =>
        has_deltas c' = true
        ∧ forallb (λ row, recognized_op (psp_op row))
                  [example_row "A" OP_INSERT; example_row "B" OP_DELETE] = true
    | Aborted _ =>
        forallb (λ row, recognized_op (psp_op row))
                [example_row "A" OP_INSERT; example_row "B" OP_DELETE] = false
    | Thrown _ => False
    end.
Proof.
  split; [reflexivity|].
  apply (notify_delete_forces_has_deltas example_ctx
           [example_row "A" OP_INSERT; example_row "B" OP_DELETE]).
  reflexivity.
Defined.

Lemma delta_keys_collapse_duplicates_witness :
  ∃ c',
    run_notifies example_ctx
      [NotifyFirst [example_row "A" OP_INSERT; example_row "B" OP_INSERT;
                    example_row "A" OP_INSERT];
       NotifyUpdate [example_row "B" OP_INSERT; example_row "A" OP_DELETE]
                    [] [] [] [] []]
    = Returned c'
    ∧ NoDup (delta_pkey_vector c')
    ∧ occurrences (SStr "A") (delta_pkey_vector c') = 1.
Proof.
  eexists. split; [reflexivity|].
  match goal with
  | |- NoDup (delta_pkey_vector ?c') ∧ _ =>
      destruct (delta_keys_collapse_duplicates example_ctx
                  [NotifyFirst [example_row "A" OP_INSERT;
                                example_row "B" OP_INSERT;
                                example_row "A" OP_INSERT];
                   NotifyUpdate [example_row "B" OP_INSERT;
                                 example_row "A" OP_DELETE] [] [] [] [] []]
                  c' eq_refl) as (Hnodup & _ & Hall)
  end.
  split; [exact Hnodup|].
  apply Forall_cons in Hall as [Hfirst _]. exact Hfirst.
Defined.

Lemma get_data_replaces_invalid_cells_witness :
  0 < length [SStr "B"]
  ∧ 1 < Z.to_nat (get_column_count example_ctx)
  ∧ get_data_pkeys example_ctx [SStr "B"]
      !! (0 * Z.to_nat (get_column_count example_ctx) + 1)
    = Some (normalize_cell (stored_pkeys example_ctx [SStr "B"] 1 0))
  ∧ stored_pkeys example_ctx [SStr "B"] 1 0 = SClear
  ∧ normalize_cell (stored_pkeys example_ctx [SStr "B"] 1 0) = SNone.
Proof.
  assert (0 < length [SStr "B"]) as Hrow by (simpl; lia).
  assert (1 < Z.to_nat (get_column_count example_ctx)) as Hcol
    by (vm_compute; lia).
  split; [exact Hrow|]. split; [exact Hcol|]. split; [|split; reflexivity].
  destruct (get_data_replaces_invalid_cells example_ctx) as (_ & _ & Hpkeys).
  destruct (Hpkeys [SStr "B"]) as (_ & Hcell).
  exact (Hcell 0 1 Hrow Hcol).
Defined.

Lemma run_notifies_frame_witness :
  run_notifies example_ctx [NotifyFirst [example_row "A" OP_INSERT]]
    = Returned example_ctx_after_insert
  ∧ m_gstate example_ctx_after_insert = m_gstate example_ctx
  ∧ m_delta_pkeys example_ctx ⊆ m_delta_pkeys example_ctx_after_insert.
Proof.
  split; [reflexivity|].
  destruct (run_notifies_frame example_ctx
              [NotifyFirst [example_row "A" OP_INSERT]]
              example_ctx_after_insert eq_refl)
    as (_ & _ & Hg & _ & _ & Hsub & _).
  split; [exact Hg|exact Hsub].
Defined.

Lemma notify_order_irrelevant_witness :
  [example_row "A" OP_INSERT; example_row "B" OP_DELETE]
    ≡ₚ [example_row "B" OP_DELETE; example_row "A" OP_INSERT]
  ∧ notify example_ctx
      [example_row "A" OP_INSERT; example_row "B" OP_DELETE] [] [] [] [] []
    = notify example_ctx
        [example_row "B" OP_DELETE; example_row "A" OP_INSERT] [] [] [] [] [].
Proof.
  assert ([example_row "A" OP_INSERT; example_row "B" OP_DELETE]
            ≡ₚ [example_row "B" OP_DELETE; example_row "A" OP_INSERT])
    as Hperm by apply perm_swap.
  split; [exact Hperm|].
  exact (proj1 (notify_order_irrelevant example_ctx _ _
                  [] [] [] [] [] [] [] [] [] [] Hperm)).
Defined.

Lemma notify_has_deltas_iff_tracked_witness :
  ∃ c',
    notify example_ctx [example_row "B" OP_DELETE] [] [] [] [] [] = Returned c'
    ∧ (has_deltas c' = true ↔ m_delta_pkeys c' ≠ ∅).
Proof.
  eexists. split; [reflexivity|].
  apply (notify_has_deltas_iff_tracked example_ctx
           [example_row "B" OP_DELETE] [] [] [] [] []).
  reflexivity.
Defined.

Lemma notify_after_step_begin_witness :
  m_init example_ctx_after_insert = true
  ∧ has_deltas (step_begin example_ctx_after_insert) = true
  ∧ ∃ c',
      notify (step_begin example_ctx_after_insert) [] [] [] [] [] []
      = Returned c'
      ∧ has_deltas c' = false.
Proof.
  assert (m_init example_ctx_after_insert = true) as Hinit by reflexivity.
  split; [exact Hinit|]. split; [reflexivity|].
  destruct (notify_after_step_begin example_ctx_after_insert []
              [] [] [] [] [] Hinit eq_refl) as (c' & Hrun & _ & Hflag & _).
  exists c'. split; [exact Hrun|exact Hflag].
Defined.

Lemma cycle_delta_is_the_keys_notified_witness :
  m_init example_ctx_after_insert = true
  ∧ ∃ c',
      run_notifies (step_begin example_ctx_after_insert)
        [NotifyUpdate [example_row "B" OP_INSERT; example_row "B" OP_DELETE]
                      [] [] [] [] []]
      = Returned c'
      ∧ delta_num_rows (get_row_delta c').1 = 1
      ∧ rows_changed (get_row_delta c').1 = false.
Proof.
  assert (m_init example_ctx_after_insert = true) as Hinit by reflexivity.
  split; [exact Hinit|]. eexists. split; [reflexivity|].
  match goal with
  | |- delta_num_rows (get_row_delta ?c').1 = _ ∧ _ =>
      destruct (cycle_delta_is_the_keys_notified example_ctx_after_insert
                  [NotifyUpdate [example_row "B" OP_INSERT;
                                 example_row "B" OP_DELETE] [] [] [] [] []]
                  c' Hinit eq_refl) as (Hrows & _ & Hflag)
  end.
  split; [|exact Hflag]. rewrite Hrows. vm_compute. reflexivity.
Defined.

Lemma get_column_name_bounds_witness :
  (- 2 ^ 63 ≤ -1 < 2 ^ 63)%Z
  ∧ (Z.of_nat (length (m_schema example_ctx)) < 2 ^ 63)%Z
  ∧ get_column_name example_ctx (-1) = EmptyString
  ∧ get_column_name example_ctx 1 = "value"%string
  ∧ get_column_name example_ctx 2 = EmptyString.
Proof.
  assert (- 2 ^ 63 ≤ -1 < 2 ^ 63)%Z as Hneg by lia.
  assert (- 2 ^ 63 ≤ 1 < 2 ^ 63)%Z as Hone by lia.
  assert (- 2 ^ 63 ≤ 2 < 2 ^ 63)%Z as Htwo by lia.
  assert (Z.of_nat (length (m_schema example_ctx)) < 2 ^ 63)%Z as Hlen
    by (simpl; lia).
  split; [exact Hneg|]. split; [exact Hlen|].
  rewrite (get_column_name_bounds example_ctx (-1) Hneg Hlen).
  rewrite (get_column_name_bounds example_ctx 1 Hone Hlen).
  rewrite (get_column_name_bounds example_ctx 2 Htwo Hlen).
  repeat split.
Defined.

(** The range overload on arguments that are negative, beyond the bounds
    or inverted. *)
Example get_data_negative_and_beyond :
  get_data example_ctx (-3) 10 0 5
  = Returned [SStr "A"; SInt 1; SStr "B"; SNone].
Proof. vm_compute. reflexivity. Qed.

Example get_data_inverted :
  get_data example_ctx 5 1 1 0 = Returned [].
Proof. vm_compute. reflexivity. Qed.

Example get_data_by_pkey :
  get_data_pkeys example_ctx [SStr "B"; SStr "A"]
  = [SStr "B"; SNone; SStr "A"; SInt 1].
Proof. vm_compute. reflexivity. Qed.

(** *** Where the code departs from the spec *)

(** C1 as stated fails: after one batch that inserts the key A, a first
    [get_row_delta] leaves the delta key set holding A, and a second call
    right after it returns a delta of one row, the row of A. *)
Lemma get_row_delta_second_call_not_empty :
  has_deltas (get_row_delta example_ctx_after_insert).2 = false
  ∧ m_delta_pkeys (get_row_delta example_ctx_after_insert).2 ≠ ∅
  ∧ delta_num_rows
      (get_row_delta (get_row_delta example_ctx_after_insert).2).1 = 1
  ∧ delta_data
      (get_row_delta (get_row_delta example_ctx_after_insert).2).1
    = [SStr "A"; SInt 1].
Proof.
  split; [reflexivity|]. split.
  - intros Hempty. apply (f_equal size) in Hempty.
    vm_compute in Hempty. discriminate.
  - split; vm_compute; reflexivity.
Qed.

(** C2 as stated fails: a row tagged UPDATE, one of the three tags the
    spec lists, is not classified: the call aborts. *)
Lemma notify_update_tag_aborts :
  forallb (λ row, listed_op (psp_op row)) [example_row "A" OP_UPDATE] = true
  ∧ notify example_ctx [example_row "A" OP_UPDATE] [] [] [] [] []
    = Aborted "Unexpected OP".
Proof. split; reflexivity. Qed.

End CtxUnitProps.

(** * Properties of the websocket transport *)

Module WebSocketProps.
Import WebSocket.

(** *** The chunks of a binary *)

Lemma post_chunked_chunks (chunk_size : nat) (binary : list byte)
    (fuel start end_ : nat) :
  0 < chunk_size →
  start ≤ length binary →
  length binary - start < fuel →
  ∃ chunks,
    _post_chunked fuel chunk_size binary start end_ (length binary) = Some chunks
    ∧ concat chunks = drop start binary
    ∧ Forall (λ chunk, 0 < length chunk ≤ chunk_size) chunks.
Proof.
  intros Hsize. revert start end_.
  induction fuel as [|fuel IH]; intros start end_ Hstart Hfuel; [lia|].
  simpl. case_bool_decide as Hlt.
  - set (stop := if bool_decide (length binary < start + chunk_size)
                 then length binary else start + chunk_size).
    assert (start < stop ≤ length binary ∧ stop - start ≤ chunk_size) as Hstop.
    { unfold stop. case_bool_decide; lia. }
    destruct (IH stop stop) as (chunks & -> & Hcat & Hall); [lia..|].
    eexists. split; [reflexivity|]. split.
    + simpl. rewrite Hcat. unfold slice.
      replace stop with (start + (stop - start)) at 2 by lia.
      rewrite <- drop_drop. apply take_drop.
    + constructor; [|done]. unfold slice.
      rewrite length_take, length_drop. lia.
  - exists []. repeat split; [|constructor].
    simpl. symmetry. apply drop_ge. lia.
Qed.

(** *** The client, chunk after chunk *)

Lemma receive_chunks (chunks : list (list byte)) :
  ∀ (c : client) (full : list byte) (total : nat) (id : Z),
    _full_binary c = Some full →
    _total_chunk_length c = Some total →
    _pending_binary c = Some id → id ≠ 0%Z →
    _pending_binary_length c = Some (length full) →
    Forall (λ chunk, 0 < length chunk) chunks →
    chunks ≠ [] →
    total + length (concat chunks) = length full →
    receive c (BinaryFrame <$> chunks)
    = Done (end_binary_flow c,
            [delivered id (_pending_port_id c)
                       (take total full ++ concat chunks)])
    ∧ ∀ n, n < length chunks →
        ∃ c', receive c (take n (BinaryFrame <$> chunks)) = Done (c', []).
Proof.
  induction chunks as [|chunk rest IH];
    intros c full total id Hfull Htotal Hid Hnz Hlen Hpos Hne Hsum; [done|].
  apply Forall_cons in Hpos as [Hchunk Hpos].
  simpl in Hsum. rewrite length_app in Hsum.
  assert (onmessage c (BinaryFrame chunk)
          = on_chunk c id chunk (Some (length chunk))) as Hmsg.
  { unfold onmessage. rewrite Hid. simpl.
    destruct (id =? 0)%Z eqn:Hz; [lia|done]. }
  assert (uint8array_set full chunk total
          = Done (take total full ++ chunk
                    ++ drop (total + length chunk) full)) as Hset.
  { unfold uint8array_set. by rewrite bool_decide_eq_true_2 by lia. }
  destruct rest as [|chunk' rest'].
  - simpl in Hsum. split.
    + change (BinaryFrame <$> [chunk]) with [BinaryFrame chunk].
      cbn [receive]. rewrite Hmsg. unfold on_chunk.
      rewrite Hfull, Htotal. simpl. rewrite Hset, Hlen. simpl.
      replace (total + length chunk =? length full) with true
        by (symmetry; apply Nat.eqb_eq; lia).
      rewrite drop_ge by lia. rewrite !app_nil_r.
      unfold delivered. by destruct (_pending_port_id c).
    + intros n Hn. simpl in Hn. replace n with 0 by lia. simpl. eauto.
  - set (rest := chunk' :: rest') in *.
    assert (0 < length (concat rest)) as Hrest.
    { apply Forall_cons in Hpos as [Hchunk' _].
      unfold rest. simpl. rewrite length_app. lia. }
    set (full' := take total full ++ chunk ++ drop (total + length chunk) full).
    set (c1 := {| _full_binary := Some full';
                  _total_chunk_length := Some (total + length chunk);
                  _pending_binary := _pending_binary c;
                  _pending_binary_length := _pending_binary_length c;
                  _pending_port_id := _pending_port_id c |}).
    assert (onmessage c (BinaryFrame chunk) = Done (c1, [])) as Hstep.
    { rewrite Hmsg. unfold on_chunk.
      rewrite Hfull, Htotal. simpl. rewrite Hset, Hlen. simpl.
      replace (total + length chunk =? length full) with false
        by (symmetry; apply Nat.eqb_neq; lia).
      unfold c1. by rewrite Hlen. }
    assert (length full' = length full) as Hlen'.
    { unfold full'. rewrite !length_app, length_take, length_drop. lia. }
    destruct (IH c1 full' (total + length chunk) id) as [Hall Hprefix];
      [done|done|done|done|by simpl; rewrite Hlen'|done|done|lia|].
    split.
    + change (BinaryFrame <$> chunk :: rest)
        with (BinaryFrame chunk :: (BinaryFrame <$> rest)).
      cbn [receive]. rewrite Hstep, Hall. simpl. do 4 f_equal.
      assert (take (total + length chunk) full' = take total full ++ chunk)
        as ->.
      { unfold full'. rewrite app_assoc. apply take_app_length'.
        rewrite length_app, length_take. lia. }
      by rewrite <- app_assoc.
    + intros [|n] Hn; [simpl; eauto|].
      change (BinaryFrame <$> chunk :: rest)
        with (BinaryFrame chunk :: (BinaryFrame <$> rest)).
      cbn [take receive]. rewrite Hstep.
      destruct (Hprefix n) as [c' ->]; [cbn [length] in Hn; lia|].
      simpl. eauto.
Qed.

Lemma idle_end_binary_flow (c : client) : idle (end_binary_flow c).
Proof. by repeat split. Qed.

Lemma idle_new_client : idle new_client.
Proof. by repeat split. Qed.

(** The pre-message puts an idle client in the pending state. *)
Lemma onmessage_pre_message (c : client) (msg : json_msg) (binary : list byte) :
  idle c → binary ≠ [] →
  onmessage c (TextFrame (pre_message msg binary))
  = Done ({| _full_binary := Some (replicate (length binary) Byte.x00);
             _total_chunk_length := Some 0;
             _pending_binary := Some (msg_id msg);
             _pending_binary_length := Some (length binary);
             _pending_port_id := msg_port_id msg |}, []).
Proof.
  intros (Hpending & Hport & Htotal) Hne.
  unfold onmessage. rewrite Hpending. simpl.
  destruct binary as [|b binary]; [done|]. simpl.
  rewrite Hport, Htotal. by destruct (msg_port_id msg).
Qed.

(** C8, as the code has it.  Take a binary that is not empty, posted under
    a message id that is not 0, with a positive chunk size, to a client that
    has no binary pending.  [_post_chunked] ends and sends chunks of at most
    [chunk_size] bytes whose concatenation is the binary; the client, fed
    the pre-message and the chunks, calls the handler exactly once, with the
    whole binary, and is idle again; fed any proper prefix of these frames
    it has not called the handler. *)
Theorem chunked_binary_round_trip (chunk_size fuel : nat) (msg : json_msg)
    (binary : list byte) (c : client) :
  0 < chunk_size → binary ≠ [] → msg_id msg ≠ 0%Z → idle c →
  length binary < fuel →
  ∃ chunks,
    _post_chunked fuel chunk_size binary 0 chunk_size (length binary)
    = Some chunks
    ∧ concat chunks = binary
    ∧ Forall (λ chunk, length chunk ≤ chunk_size) chunks
    ∧ post_binary fuel chunk_size msg binary
      = Some (TextFrame (pre_message msg binary) :: (BinaryFrame <$> chunks))
    ∧ (∃ c',
         receive c (TextFrame (pre_message msg binary) :: (BinaryFrame <$> chunks))
         = Done (c', [delivered (msg_id msg) (msg_port_id msg) binary])
         ∧ idle c')
    ∧ ∀ n, n ≤ length chunks →
        ∃ c',
          receive c (take n (TextFrame (pre_message msg binary)
                             :: (BinaryFrame <$> chunks)))
          = Done (c', []).
Proof.
  intros Hsize Hne Hid Hidle Hfuel.
  destruct (post_chunked_chunks chunk_size binary fuel 0 chunk_size)
    as (chunks & Hpost & Hcat & Hall); [done|lia|lia|].
  rewrite drop_0 in Hcat.
  exists chunks. split; [done|]. split; [done|]. split.
  { eapply Forall_impl; [exact Hall|]. simpl. lia. }
  split. { unfold post_binary. by rewrite Hpost. }
  set (c0 := {| _full_binary := Some (replicate (length binary) Byte.x00);
                _total_chunk_length := Some 0;
                _pending_binary := Some (msg_id msg);
                _pending_binary_length := Some (length binary);
                _pending_port_id := msg_port_id msg |}).
  pose proof (onmessage_pre_message c msg binary Hidle Hne) as Hpre.
  fold c0 in Hpre.
  destruct (receive_chunks chunks c0 (replicate (length binary) Byte.x00)
              0 (msg_id msg)) as [Hdone Hprefix];
    [done|done|done|done|by simpl; rewrite length_replicate| | | |].
  { eapply Forall_impl; [exact Hall|]. simpl. lia. }
  { intros ->. by destruct binary. }
  { rewrite Hcat, length_replicate. lia. }
  split.
  - exists (end_binary_flow c0). split; [|apply idle_end_binary_flow].
    cbn [receive]. rewrite Hpre, Hdone, Hcat. reflexivity.
  - intros [|n] Hn; [simpl; eauto|].
    cbn [take receive]. rewrite Hpre.
    destruct (Hprefix n) as [c' ->]; [lia|]. simpl. eauto.
Qed.

(** *** Hosting *)

(** C9.  When [name] is registered in a cache, hosting under it fails with
    the error whose message is the name in double quotes followed by
    " already exists"; the manager after the failed call is the manager
    before it, so the name still answers the object hosted before.  This
    holds for [_host] and for [host_table] and [host_view], which call it
    on [_tables] and on [_views]. *)
Theorem host_registered_name_fails (cache : cache_ref) (name : string)
    (input existing : hosted) (m : manager) :
  cache_of cache m !! name = Some existing →
  _host cache name input m = (m, Throw (already_exists name))
  ∧ cache_of cache (_host cache name input m).1 !! name = Some existing
  ∧ match cache with
    | Tables => host_table name input m = (m, Throw (already_exists name))
    | Views => host_view name input m = (m, Throw (already_exists name))
    end.
Proof.
  intros Hreg.
  assert (_host cache name input m = (m, Throw (already_exists name))) as Hhost.
  { unfold _host. by rewrite Hreg. }
  split; [done|]. split; [by rewrite Hhost|].
  destruct cache; exact Hhost.
Qed.

(** ** Further properties of the transport *)

(** *** The chunks, one by one *)

Lemma take_min_length {A} (n : nat) (l : list A) :
  take (n `min` length l) l = take n l.
Proof.
  destruct (decide (n ≤ length l)).
  - by rewrite Nat.min_l.
  - rewrite Nat.min_r by lia. rewrite !take_ge by lia. done.
Qed.

Lemma chunk_count_step (chunk_size remaining : nat) :
  0 < chunk_size → 0 < remaining →
  (remaining + chunk_size - 1) / chunk_size
  = S ((remaining - chunk_size `min` remaining + chunk_size - 1) / chunk_size).
Proof.
  intros Hsize Hrem.
  destruct (decide (remaining ≤ chunk_size)) as [Hle|Hgt].
  - rewrite Nat.min_r by lia.
    replace (remaining - remaining + chunk_size - 1) with (chunk_size - 1) by lia.
    rewrite (Nat.div_small (chunk_size - 1)) by lia.
    symmetry. apply (Nat.div_unique _ _ 1 (remaining - 1)); lia.
  - rewrite Nat.min_l by lia.
    replace (remaining + chunk_size - 1)
      with (remaining - chunk_size + chunk_size - 1 + 1 * chunk_size) by lia.
    rewrite Nat.div_add by lia. lia.
Qed.

Lemma post_chunked_each_chunk (chunk_size : nat) (binary : list byte)
    (fuel start end_ : nat) :
  0 < chunk_size →
  start ≤ length binary →
  length binary - start < fuel →
  ∃ chunks,
    _post_chunked fuel chunk_size binary start end_ (length binary) = Some chunks
    ∧ length chunks = (length binary - start + chunk_size - 1) / chunk_size
    ∧ ∀ i, i < length chunks →
        chunks !! i = Some (take chunk_size (drop (start + i * chunk_size) binary)).
Proof.
  intros Hsize. revert start end_.
  induction fuel as [|fuel IH]; intros start end_ Hstart Hfuel; [lia|].
  simpl. case_bool_decide as Hlt.
  - set (stop := if bool_decide (length binary < start + chunk_size)
                 then length binary else start + chunk_size).
    assert (stop = start + chunk_size `min` (length binary - start)) as Hstop.
    { unfold stop. case_bool_decide; lia. }
    destruct (IH stop stop) as (chunks & -> & Hcount & Heach); [lia..|].
    eexists. split; [reflexivity|]. split.
    + simpl. rewrite Hcount.
      rewrite (chunk_count_step chunk_size (length binary - start)) by lia.
      do 3 f_equal. lia.
    + intros [|i] Hi; simpl.
      * f_equal. unfold slice. rewrite Nat.add_0_r.
        replace (stop - start)
          with (chunk_size `min` length (drop start binary))
          by (rewrite length_drop; lia).
        apply take_min_length.
      * rewrite Heach by (simpl in Hi; lia).
        destruct (decide (chunk_size ≤ length binary - start)).
        -- do 3 f_equal. lia.
        -- rewrite !drop_ge by nia. done.
  - exists []. split; [done|]. split; [|intros i Hi; simpl in Hi; lia].
    simpl. symmetry. apply Nat.div_small. lia.
Qed.

(** X9.  With a positive chunk size, [_post_chunked] sends
    ceil(length / chunk_size) chunks, and the chunk of rank i is the
    chunk_size bytes of the binary from offset i * chunk_size on (fewer for
    the last one, when the binary ends before): every chunk but the last is
    full. *)
Theorem post_chunked_chunk_of_rank (chunk_size fuel : nat) (binary : list byte) :
  0 < chunk_size →
  length binary < fuel →
  ∃ chunks,
    _post_chunked fuel chunk_size binary 0 chunk_size (length binary)
    = Some chunks
    ∧ length chunks = (length binary + chunk_size - 1) / chunk_size
    ∧ (∀ i, i < length chunks →
         chunks !! i = Some (take chunk_size (drop (i * chunk_size) binary)))
    ∧ (∀ i chunk, S i < length chunks → chunks !! i = Some chunk →
         length chunk = chunk_size).
Proof.
  intros Hsize Hfuel.
  destruct (post_chunked_each_chunk chunk_size binary fuel 0 chunk_size)
    as (chunks & Hpost & Hcount & Heach); [done|lia|lia|].
  rewrite Nat.sub_0_r in Hcount.
  exists chunks. split; [done|]. split; [done|]. split; [exact Heach|].
  intros i chunk Hi Hchunk. rewrite Heach in Hchunk by lia.
  injection Hchunk as <-. rewrite length_take, length_drop.
  assert (i * chunk_size + 2 * chunk_size ≤ length binary + chunk_size - 1);
    [|lia].
  rewrite Hcount in Hi.
  pose proof (Nat.Div0.mul_div_le (length binary + chunk_size - 1) chunk_size).
  nia.
Qed.

(** X10.  With a chunk size of 0, [_post_chunked] on a binary that has
    bytes left to send never ends: whatever the number of timer callbacks
    allowed, the run needs more. *)
Theorem post_chunked_zero_chunk_size (fuel : nat) (binary : list byte)
    (start end_ length : nat) :
  start < length →
  _post_chunked fuel 0 binary start end_ length = None.
Proof.
  intros Hlt. revert end_.
  induction fuel as [|fuel IH]; intros end_; simpl; [done|].
  rewrite bool_decide_eq_true_2 by done.
  rewrite Nat.add_0_r, bool_decide_eq_false_2 by lia.
  by rewrite IH.
Qed.

(** *** The handler, frame after frame *)

Lemma receive_app (c : client) (frames frames' : list ws_frame) :
  receive c (frames ++ frames')
  = match receive c frames with
    | Throw e => Throw e
    | Done (c', calls) =>
        match receive c' frames' with
        | Throw e => Throw e
        | Done (c'', calls') => Done (c'', calls ++ calls')
        end
    end.
Proof.
  revert c. induction frames as [|frame frames IH]; intros c; simpl.
  - by destruct (receive c frames') as [[c' calls]|].
  - destruct (onmessage c frame) as [[c1 calls1]|]; [|done].
    rewrite IH. destruct (receive c1 frames) as [[c2 calls2]|]; [|done].
    destruct (receive c2 frames') as [[c3 calls3]|]; [|done].
    by rewrite app_assoc.
Qed.

(** X11.  A pong frame changes nothing, even in the middle of a binary:
    the handler run on a sequence of frames ends as it does on the sequence
    without its pong frames. *)
Theorem receive_ignores_pongs (c : client) (frames : list ws_frame) :
  receive c (filter (λ frame, is_pong frame = false) frames) = receive c frames.
Proof.
  revert c. induction frames as [|frame frames IH]; intros c; [done|].
  rewrite filter_cons. destruct frame as [|msg|binary]; cbn [is_pong].
  - rewrite decide_False by done. cbn [receive].
    change (onmessage c PongFrame) with (Done (c, @nil handled)).
    rewrite IH. by destruct (receive c frames) as [[c' calls]|].
  - rewrite decide_True by done. cbn [receive].
    destruct (onmessage c (TextFrame msg)) as [[c1 calls1]|]; [|done].
    by rewrite IH.
  - rewrite decide_True by done. cbn [receive].
    destruct (onmessage c (BinaryFrame binary)) as [[c1 calls1]|]; [|done].
    by rewrite IH.
Qed.

Lemma receive_post_frames (chunk_size fuel : nat)
    (post : json_msg * option (list byte)) (c : client) :
  0 < chunk_size → idle c → deliverable fuel post →
  ∃ frames c',
    post_frames fuel chunk_size post.1 post.2 = Some frames
    ∧ receive c frames = Done (c', [expected_call post])
    ∧ idle c'.
Proof.
  intros Hsize Hidle Hpost. destruct post as [msg [binary|]];
    unfold deliverable, expected_call in *; simpl in *.
  - destruct Hpost as (Hne & Hid & Hfuel).
    destruct (post_chunked_chunks chunk_size binary fuel 0 chunk_size)
      as (chunks & Hchunks & Hcat & Hall); [done|lia|lia|].
    rewrite drop_0 in Hcat.
    set (c0 := {| _full_binary := Some (replicate (length binary) Byte.x00);
                  _total_chunk_length := Some 0;
                  _pending_binary := Some (msg_id msg);
                  _pending_binary_length := Some (length binary);
                  _pending_port_id := msg_port_id msg |}).
    pose proof (onmessage_pre_message c msg binary Hidle Hne) as Hpre.
    fold c0 in Hpre.
    destruct (receive_chunks chunks c0 (replicate (length binary) Byte.x00)
                0 (msg_id msg)) as [Hdone _];
      [done|done|done|done|by simpl; rewrite length_replicate| | | |].
    { eapply Forall_impl; [exact Hall|]. simpl. lia. }
    { intros ->. by destruct binary. }
    { rewrite Hcat, length_replicate. lia. }
    eexists _, (end_binary_flow c0). split; [|split].
    + unfold post_binary. rewrite Hchunks. reflexivity.
    + cbn [receive]. rewrite Hpre, Hdone, Hcat. reflexivity.
    + apply idle_end_binary_flow.
  - exists [TextFrame msg], c. split; [done|]. split; [|done].
    destruct Hidle as (Hpending & _). simpl.
    unfold onmessage. rewrite Hpending. simpl. by rewrite Hpost.
Qed.

(** X12.  Posts made one after the other, each with its chunks sent before
    the next post, reach the handler of an idle client in order, one call
    for each post: the message for a plain post, the whole binary for a
    post with a binary; and the client is idle again after them. *)
Theorem receive_posts_in_order (chunk_size fuel : nat)
    (posts : list (json_msg * option (list byte))) (c : client) :
  0 < chunk_size → idle c → Forall (deliverable fuel) posts →
  ∃ frames c',
    posts_frames fuel chunk_size posts = Some frames
    ∧ receive c frames = Done (c', expected_call <$> posts)
    ∧ idle c'.
Proof.
  intros Hsize. revert c.
  induction posts as [|post posts IH]; intros c Hidle Hall.
  - exists [], c. split; [done|]. split; done.
  - apply Forall_cons in Hall as [Hpost Hall].
    destruct (receive_post_frames chunk_size fuel post c Hsize Hidle Hpost)
      as (frames1 & c1 & Hframes1 & Hrecv1 & Hidle1).
    destruct (IH c1 Hidle1 Hall) as (frames2 & c2 & Hframes2 & Hrecv2 & Hidle2).
    exists (frames1 ++ frames2), c2. split; [|split; [|done]].
    + destruct post as [msg transferable]. simpl in *.
      by rewrite Hframes1, Hframes2.
    + by rewrite receive_app, Hrecv1, Hrecv2.
Qed.

Lemma wedged_onmessage (c : client) (frame : ws_frame) :
  wedged c →
  match onmessage c frame with
  | Done (c', calls) => calls = [] ∧ wedged c'
  | Throw _ => True
  end.
Proof.
  intros [Hpending Hstuck].
  assert (∀ source byte_length,
            match on_chunk c (default 0%Z (_pending_binary c)) source
                           byte_length with
            | Done (c', calls) => calls = [] ∧ wedged c'
            | Throw _ => True
            end) as Hchunk.
  { intros source byte_length. unfold on_chunk.
    destruct (_full_binary c) as [full|] eqn:Hfull; [|done].
    destruct (_total_chunk_length c) as [total|] eqn:Htotal.
    - unfold uint8array_set. simpl. case_bool_decide; [lia|done].
    - destruct (uint8array_set full source _) as [full'|]; [|done].
      simpl. split; [done|]. split; [exact Hpending|done]. }
  destruct frame as [|msg|binary].
  - simpl. split; [done|]. by split.
  - unfold onmessage. rewrite Hpending. apply Hchunk.
  - unfold onmessage. rewrite Hpending. apply Hchunk.
Qed.

Lemma wedged_receive_all (frames : list ws_frame) :
  ∀ c, wedged c → (receive_all c frames).2 = [].
Proof.
  induction frames as [|frame frames IH]; intros c Hwedged; [done|].
  cbn [receive_all].
  pose proof (wedged_onmessage c frame Hwedged) as Hstep.
  destruct (onmessage c frame) as [[c' calls]|].
  - destruct Hstep as [-> Hwedged']. simpl. by apply IH.
  - by apply IH.
Qed.

(** X13.  A text frame that reaches the client while a binary is pending
    (chunks are sent from timers, so another post can come in between)
    is taken for a chunk and turns the chunk count into NaN: from then on
    the handler is never called again, whatever frames follow, and whether
    or not the handler throws on some of them. *)
Theorem text_frame_wedges_pending_binary (c : client) (msg : json_msg)
    (frames : list ws_frame) :
  truthy_id (_pending_binary c) = true →
  (receive_all c (TextFrame msg :: frames)).2 = []
  ∧ match receive c (TextFrame msg :: frames) with
    | Done (_, calls) => calls = []
    | Throw _ => True
    end.
Proof.
  intros Hpending.
  assert (match onmessage c (TextFrame msg) with
          | Done (c', calls) => calls = [] ∧ wedged c'
          | Throw _ => wedged c
          end) as Hstep.
  { unfold onmessage. rewrite Hpending. unfold on_chunk, wedged.
    destruct (_full_binary c) as [full|] eqn:Hfull; [|done].
    unfold uint8array_set.
    destruct (_total_chunk_length c) as [total|] eqn:Htotal; simpl.
    - case_bool_decide as Hfit.
      + simpl. split; [done|]. split; [exact Hpending|done].
      + split; [exact Hpending|lia].
    - split; [done|]. split; [exact Hpending|done]. }
  split.
  - cbn [receive_all].
    destruct (onmessage c (TextFrame msg)) as [[c' calls]|].
    + destruct Hstep as [-> Hwedged]. simpl. by apply wedged_receive_all.
    + by apply wedged_receive_all.
  - cbn [receive].
    destruct (onmessage c (TextFrame msg)) as [[c' calls]|]; [|done].
    destruct Hstep as [-> Hwedged].
    assert (∀ frames c, wedged c →
              match receive c frames with
              | Done (_, calls) => calls = []
              | Throw _ => True
              end) as Hrun.
    { clear. induction frames as [|frame frames IH]; intros c Hwedged; [done|].
      cbn [receive].
      pose proof (wedged_onmessage c frame Hwedged) as Hstep.
      destruct (onmessage c frame) as [[c' calls]|]; [|done].
      destruct Hstep as [-> Hwedged'].
      specialize (IH c' Hwedged').
      by destruct (receive c' frames) as [[c'' calls]|]. }
    specialize (Hrun frames c' Hwedged).
    by destruct (receive c' frames) as [[c'' calls]|].
Qed.

Lemma receive_chunks_after_nan (chunks : list (list byte)) :
  ∀ (c : client) (full : list byte),
    _full_binary c = Some full →
    truthy_id (_pending_binary c) = true →
    _total_chunk_length c = None →
    Forall (λ chunk, length chunk ≤ length full) chunks →
    ∃ c', receive c (BinaryFrame <$> chunks) = Done (c', []).
Proof.
  induction chunks as [|chunk chunks IH]; intros c full Hfull Hpending Hnan Hfit.
  - by exists c.
  - apply Forall_cons in Hfit as [Hchunk Hfit].
    change (BinaryFrame <$> chunk :: chunks)
      with (BinaryFrame chunk :: (BinaryFrame <$> chunks)).
    cbn [receive]. unfold onmessage. rewrite Hpending.
    unfold on_chunk. rewrite Hfull, Hnan. simpl.
    unfold uint8array_set. rewrite bool_decide_eq_true_2 by (simpl; lia).
    simpl.
    match goal with
    | |- ∃ c', match receive ?c1 _ with _ => _ end = _ =>
        destruct (IH c1 (chunk ++ drop (length chunk) full)) as [c' ->];
          [done|done|done| |by exists c']
    end.
    eapply Forall_impl; [exact Hfit|]. simpl. intros chunk' Hle.
    rewrite length_app, length_drop. lia.
Qed.

(** *** Hosting, ejecting, deleting *)

Lemma cache_of_set_cache (r r' : cache_ref) (cache : gmap string hosted)
    (m : manager) :
  cache_of r' (set_cache r cache m)
  = match r, r' with
    | Tables, Tables | Views, Views => cache
    | _, _ => cache_of r' m
    end.
Proof. by destruct r, r'. Qed.

(** X14.  Hosting under a name that is free in its cache, and that is not
    one every object inherits, succeeds: the name then answers the object
    hosted, the other names of that cache and the whole of the other cache
    are as before (a table and a view may share a name), and one callback
    is registered on the object. *)
Theorem host_free_name_registers (cache : cache_ref) (name : string)
    (input : hosted) (m : manager) :
  cache_of cache m !! name = None →
  name ∉ object_prototype_names →
  (_host cache name input m).2 = Done ()
  ∧ cache_of cache (_host cache name input m).1 !! name = Some input
  ∧ (∀ name', name' ≠ name →
       cache_of cache (_host cache name input m).1 !! name'
       = cache_of cache m !! name')
  ∧ cache_of (match cache with Tables => Views | Views => Tables end)
             (_host cache name input m).1
    = cache_of (match cache with Tables => Views | Views => Tables end) m
  ∧ on_delete_callbacks (_host cache name input m).1
    = on_delete_callbacks m ++ [(input, (cache, name))].
Proof.
  intros Hfree _. unfold _host. rewrite Hfree. simpl.
  split; [done|]. rewrite !cache_of_set_cache.
  destruct cache; simpl; (split; [apply lookup_insert_eq|]);
    (split; [intros name' Hne; by apply lookup_insert_ne|]); done.
Qed.

(** X15.  Ejecting frees the name, whatever was hosted under it: hosting
    under the name (one that no object inherits) succeeds right after, for
    tables and for views; and ejecting a name that is not hosted changes
    neither cache. *)
Theorem eject_frees_name (name : string) (input : hosted) (m : manager) :
  name ∉ object_prototype_names →
  (host_table name input (eject_table name m)).2 = Done ()
  ∧ _tables (host_table name input (eject_table name m)).1 !! name = Some input
  ∧ (host_view name input (eject_view name m)).2 = Done ()
  ∧ _views (host_view name input (eject_view name m)).1 !! name = Some input
  ∧ (_tables m !! name = None → _tables (eject_table name m) = _tables m)
  ∧ (_views m !! name = None → _views (eject_view name m) = _views m)
  ∧ _views (eject_table name m) = _views m
  ∧ _tables (eject_view name m) = _tables m.
Proof.
  intros _.
  unfold host_table, host_view, _host, eject_table, eject_view. simpl.
  rewrite !lookup_delete_eq. simpl. rewrite !lookup_insert_eq.
  repeat split; try done; intros Hfree; by apply delete_id.
Qed.

Lemma fire_on_delete_fold (input : hosted)
    (entries : list (hosted * (cache_ref * string))) (m : manager)
    (cache : cache_ref) (name : string) :
  let m' := foldl (λ m entry, if bool_decide (entry.1 = input)
                              then run_on_delete_callback entry.2 m else m)
                  m entries in
  ((input, (cache, name)) ∈ entries → cache_of cache m' !! name = None)
  ∧ ((input, (cache, name)) ∉ entries →
       cache_of cache m' !! name = cache_of cache m !! name)
  ∧ on_delete_callbacks m' = on_delete_callbacks m.
Proof.
  induction entries as [|entry entries IH] using rev_ind; simpl.
  - split; [by intros ?%elem_of_nil|done].
  - rewrite foldl_snoc. destruct IH as (IHin & IHout & IHcb).
    set (m1 := foldl _ m entries) in *.
    destruct entry as [obj [cache' name']]. simpl.
    assert (∀ m, cache_of cache (run_on_delete_callback (cache', name') m) !! name
                 = if bool_decide (cache' = cache ∧ name' = name) then None
                   else cache_of cache m !! name) as Hrun.
    { intros m0. unfold run_on_delete_callback. simpl.
      rewrite cache_of_set_cache. case_bool_decide as Hsame.
      - destruct Hsame as [-> ->]. destruct cache; apply lookup_delete_eq.
      - destruct cache', cache; try done;
          apply lookup_delete_ne; naive_solver. }
    assert (∀ m, on_delete_callbacks (run_on_delete_callback (cache', name') m)
                 = on_delete_callbacks m) as Hcb
      by (intros m0; unfold run_on_delete_callback; by destruct cache').
    split; [|split].
    + intros [Hin|Hlast%list_elem_of_singleton]%elem_of_app.
      * destruct (bool_decide (obj = input)); [|by apply IHin].
        rewrite Hrun.
        destruct (bool_decide (cache' = cache ∧ name' = name));
          [done|by apply IHin].
      * injection Hlast as <- <- <-.
        rewrite bool_decide_eq_true_2 by done.
        rewrite Hrun. by rewrite bool_decide_eq_true_2.
    + intros Hout. rewrite elem_of_app, list_elem_of_singleton in Hout.
      destruct (bool_decide (obj = input)) eqn:Hobj;
        [|apply IHout; naive_solver].
      apply bool_decide_eq_true in Hobj as ->.
      rewrite Hrun. rewrite bool_decide_eq_false_2 by naive_solver.
      apply IHout. naive_solver.
    + destruct (bool_decide (obj = input)); [by rewrite Hcb|done].
Qed.

(** X16.  Running the [on_delete] callbacks of a hosted object ejects it:
    every name some [_host] call registered the object under is free in its
    cache afterwards, and a name the object was never hosted under keeps
    what it answered. *)
Theorem fire_on_delete_ejects (input : hosted) (m : manager)
    (cache : cache_ref) (name : string) :
  ((input, (cache, name)) ∈ on_delete_callbacks m →
     cache_of cache (fire_on_delete input m) !! name = None)
  ∧ ((input, (cache, name)) ∉ on_delete_callbacks m →
       cache_of cache (fire_on_delete input m) !! name
       = cache_of cache m !! name).
Proof.
  destruct (fire_on_delete_fold input (on_delete_callbacks m) m cache name)
    as (Hin & Hout & _).
  split; [exact Hin|exact Hout].
Qed.

(** X17.  The callback [_host] registers deletes by name, not by object:
    when a table was hosted under a name, ejected, and another table hosted
    under the same name, running the callbacks of the first table ejects
    the second.  (The name is one that no object inherits, so that both
    tables are hosted.) *)
Theorem stale_on_delete_callback_ejects (name : string) (first second : hosted)
    (m : manager) :
  _tables m !! name = None →
  name ∉ object_prototype_names →
  _tables (host_table name second
             (eject_table name (host_table name first m).1)).1 !! name
    = Some second
  ∧ _tables (fire_on_delete first
               (host_table name second
                  (eject_table name (host_table name first m).1)).1) !! name
    = None.
Proof.
  intros Hfree _. split.
  - unfold host_table, _host, eject_table. simpl. rewrite Hfree. simpl.
    rewrite lookup_delete_eq. simpl. apply lookup_insert_eq.
  - unfold fire_on_delete.
    apply (proj1 (fire_on_delete_fold first _ _ Tables name)).
    unfold host_table, _host, eject_table. simpl. rewrite Hfree. simpl.
    rewrite lookup_delete_eq. simpl.
    apply elem_of_app. left. apply elem_of_app. right. left.
Qed.

(** *** The theorems on concrete frames *)

Lemma chunked_binary_round_trip_witness :
  0 < 2 ∧ example_binary ≠ [] ∧ msg_id example_msg ≠ 0%Z ∧ idle new_client
  ∧ length example_binary < 6
  ∧ ∃ chunks,
      _post_chunked 6 2 example_binary 0 2 (length example_binary) = Some chunks
      ∧ concat chunks = example_binary
      ∧ ∃ c',
          receive new_client
            (TextFrame (pre_message example_msg example_binary)
             :: (BinaryFrame <$> chunks))
          = Done (c', [HandleBinary 7 example_binary]).
Proof.
  assert (0 < 2) as Hsize by lia.
  assert (example_binary ≠ []) as Hne by discriminate.
  assert (msg_id example_msg ≠ 0%Z) as Hid by discriminate.
  assert (length example_binary < 6) as Hfuel by (simpl; lia).
  repeat (split; [assumption || exact idle_new_client|]).
  destruct (chunked_binary_round_trip 2 6 example_msg example_binary
              new_client Hsize Hne Hid idle_new_client Hfuel)
    as (chunks & Hpost & Hcat & _ & _ & (c' & Hrecv & _) & _).
  exists chunks. split; [exact Hpost|]. split; [exact Hcat|].
  exists c'. exact Hrecv.
Defined.

Lemma host_registered_name_fails_witness :
  cache_of Tables (host_table "trades" 1 empty_manager).1 !! "trades"%string
    = Some 1
  ∧ host_table "trades" 2 (host_table "trades" 1 empty_manager).1
    = ((host_table "trades" 1 empty_manager).1,
       Throw (already_exists "trades")).
Proof.
  assert (cache_of Tables (host_table "trades" 1 empty_manager).1
            !! "trades"%string = Some 1) as Hreg by reflexivity.
  split; [exact Hreg|].
  destruct (host_registered_name_fails Tables "trades" 2 1 _ Hreg)
    as (_ & _ & Htable).
  exact Htable.
Defined.

Lemma post_chunked_chunk_of_rank_witness :
  0 < 2 ∧ length example_binary < 6
  ∧ ∃ chunks,
      _post_chunked 6 2 example_binary 0 2 (length example_binary) = Some chunks
      ∧ length chunks = 3
      ∧ chunks !! 1 = Some [x03; x04].
Proof.
  assert (0 < 2) as Hsize by lia.
  assert (length example_binary < 6) as Hfuel by (simpl; lia).
  split; [exact Hsize|]. split; [exact Hfuel|].
  destruct (post_chunked_chunk_of_rank 2 6 example_binary Hsize Hfuel)
    as (chunks & Hpost & Hcount & Heach & _).
  exists chunks. split; [exact Hpost|]. split; [exact Hcount|].
  apply (Heach 1). rewrite Hcount. vm_compute. lia.
Defined.

Lemma post_chunked_zero_chunk_size_witness :
  0 < 5 ∧ _post_chunked 100 0 example_binary 0 0 5 = None.
Proof.
  assert (0 < 5) as Hlt by lia.
  split; [exact Hlt|].
  exact (post_chunked_zero_chunk_size 100 example_binary 0 0 5 Hlt).
Defined.

Lemma receive_posts_in_order_witness :
  0 < 2 ∧ idle new_client
  ∧ Forall (deliverable 6)
           [(example_msg, None); (example_msg, Some example_binary)]
  ∧ ∃ frames c',
      posts_frames 6 2 [(example_msg, None); (example_msg, Some example_binary)]
      = Some frames
      ∧ receive new_client frames
        = Done (c', [HandleMsg example_msg; HandleBinary 7 example_binary]).
Proof.
  assert (0 < 2) as Hsize by lia.
  assert (Forall (deliverable 6)
            [(example_msg, None); (example_msg, Some example_binary)]) as Hall.
  { repeat constructor; simpl; (discriminate || lia). }
  split; [exact Hsize|]. split; [exact idle_new_client|]. split; [exact Hall|].
  destruct (receive_posts_in_order 2 6 _ new_client Hsize idle_new_client Hall)
    as (frames & c' & Hframes & Hrecv & _).
  exists frames, c'. split; [exact Hframes|exact Hrecv].
Defined.

Lemma text_frame_wedges_pending_binary_witness :
  truthy_id (_pending_binary example_pending_client) = true
  ∧ (receive_all example_pending_client
       [TextFrame example_msg; BinaryFrame [x03; x04]; BinaryFrame [x05]]).2
    = [].
Proof.
  assert (truthy_id (_pending_binary example_pending_client) = true) as Hpending
    by reflexivity.
  split; [exact Hpending|].
  exact (proj1 (text_frame_wedges_pending_binary example_pending_client
                  example_msg [BinaryFrame [x03; x04]; BinaryFrame [x05]]
                  Hpending)).
Defined.

Lemma trades_not_inherited : "trades"%string ∉ object_prototype_names.
Proof.
  unfold object_prototype_names. rewrite !not_elem_of_cons.
  repeat split; try discriminate. apply not_elem_of_nil.
Qed.

Lemma host_free_name_registers_witness :
  cache_of Views empty_manager !! "trades"%string = None
  ∧ ("trades"%string ∉ object_prototype_names)
  ∧ (_host Views "trades" 1 empty_manager).2 = Done ()
  ∧ cache_of Views (_host Views "trades" 1 empty_manager).1 !! "trades"%string
    = Some 1
  ∧ cache_of Tables (_host Views "trades" 1 empty_manager).1
    = cache_of Tables empty_manager.
Proof.
  assert (cache_of Views empty_manager !! "trades"%string = None) as Hfree
    by reflexivity.
  split; [exact Hfree|]. split; [exact trades_not_inherited|].
  destruct (host_free_name_registers Views "trades" 1 empty_manager Hfree
              trades_not_inherited)
    as (Hdone & Hhosted & _ & Hother & _).
  split; [exact Hdone|]. split; [exact Hhosted|exact Hother].
Defined.

Lemma eject_frees_name_witness :
  ("trades"%string ∉ object_prototype_names)
  ∧ _tables (host_table "trades" 1 empty_manager).1 !! "trades"%string = Some 1
  ∧ (host_table "trades" 2
       (eject_table "trades" (host_table "trades" 1 empty_manager).1)).2
    = Done ()
  ∧ _tables empty_manager !! "trades"%string = None
  ∧ _tables (eject_table "trades" empty_manager) = _tables empty_manager.
Proof.
  split; [exact trades_not_inherited|]. split; [reflexivity|].
  destruct (eject_frees_name "trades" 2 (host_table "trades" 1 empty_manager).1
              trades_not_inherited)
    as (Hdone & _).
  split; [exact Hdone|].
  assert (_tables empty_manager !! "trades"%string = None) as Hfree
    by reflexivity.
  split; [exact Hfree|].
  destruct (eject_frees_name "trades" 2 empty_manager trades_not_inherited)
    as (_ & _ & _ & _ & Hnoop & _).
  exact (Hnoop Hfree).
Defined.

Lemma fire_on_delete_ejects_witness :
  (1, (Tables, "trades"%string))
    ∈ on_delete_callbacks (host_table "trades" 1 empty_manager).1
  ∧ _tables (host_table "trades" 1 empty_manager).1 !! "trades"%string = Some 1
  ∧ _tables (fire_on_delete 1 (host_table "trades" 1 empty_manager).1)
      !! "trades"%string = None.
Proof.
  assert ((1, (Tables, "trades"%string))
            ∈ on_delete_callbacks (host_table "trades" 1 empty_manager).1)
    as Hin by (simpl; left).
  split; [exact Hin|]. split; [reflexivity|].
  exact (proj1 (fire_on_delete_ejects 1 (host_table "trades" 1 empty_manager).1
                  Tables "trades") Hin).
Defined.

Lemma stale_on_delete_callback_ejects_witness :
  _tables empty_manager !! "trades"%string = None
  ∧ ("trades"%string ∉ object_prototype_names)
  ∧ _tables (host_table "trades" 2
               (eject_table "trades"
                  (host_table "trades" 1 empty_manager).1)).1 !! "trades"%string
    = Some 2
  ∧ _tables (fire_on_delete 1
               (host_table "trades" 2
                  (eject_table "trades"
                     (host_table "trades" 1 empty_manager).1)).1)
      !! "trades"%string
    = None.
Proof.
  assert (_tables empty_manager !! "trades"%string = None) as Hfree
    by reflexivity.
  split; [exact Hfree|]. split; [exact trades_not_inherited|].
  exact (stale_on_delete_callback_ejects "trades" 1 2 empty_manager Hfree
           trades_not_inherited).
Defined.

(** *** Where the code departs from the spec *)

(** C8 as stated fails on the empty binary: no chunk is sent, the client
    takes the pre-message, whose [binary_length] is 0, for a plain message,
    and the handler receives that message and no binary. *)
Lemma empty_binary_is_not_delivered :
  post_binary 1 2 example_msg []
    = Some [TextFrame (pre_message example_msg [])]
  ∧ receive new_client [TextFrame (pre_message example_msg [])]
    = Done (new_client, [HandleMsg (pre_message example_msg [])])
  ∧ ∀ c', receive new_client [TextFrame (pre_message example_msg [])]
          ≠ Done (c', [delivered (msg_id example_msg)
                                 (msg_port_id example_msg) []]).
Proof. repeat split. discriminate. Qed.

(** A binary posted under the message id 0 is not delivered either: the
    client does not see the pending binary, and parsing the first chunk as
    JSON throws. *)
Lemma zero_id_binary_is_not_delivered :
  post_binary 6 2 example_msg_zero_id example_binary
    = Some [TextFrame (pre_message example_msg_zero_id example_binary);
            BinaryFrame [x01; x02]; BinaryFrame [x03; x04]; BinaryFrame [x05]]
  ∧ receive new_client
      [TextFrame (pre_message example_msg_zero_id example_binary);
       BinaryFrame [x01; x02]; BinaryFrame [x03; x04]; BinaryFrame [x05]]
    = Throw "SyntaxError: JSON.parse".
Proof. split; reflexivity. Qed.

(** The chunk size the manager is built with is positive. *)
Lemma default_chunk_size_positive : 0 < default_chunk_size.
Proof. unfold default_chunk_size. lia. Qed.

End WebSocketProps.

(** * Properties of the connections *)

Module ConnectionsProps.
Import Connections.

(** *** Compound ids *)

Lemma pretty_N_char_no_slash (n : N) :
  Ascii.eqb (pretty_N_char n) slash = false.
Proof.
  unfold pretty_N_char. destruct n as [|p]; [done|].
  do 4 (try (destruct p as [p|p|]; try done)).
Qed.

Lemma pretty_N_go_no_slash (x : N) (s : string) :
  no_slash s = true → no_slash (pretty_N_go x s) = true.
Proof.
  revert s. induction (N.lt_wf_0 x) as [x _ IH]; intros s Hs.
  destruct (decide (x = 0)%N) as [->|Hx].
  - by rewrite pretty_N_go_0.
  - rewrite pretty_N_go_step by lia.
    apply IH.
    + apply N.div_lt; lia.
    + simpl. by rewrite pretty_N_char_no_slash.
Qed.

Lemma pretty_N_no_slash (x : N) : no_slash (pretty x) = true.
Proof.
  unfold pretty, pretty_N. case_decide; [done|].
  by apply pretty_N_go_no_slash.
Qed.

Lemma pretty_nat_no_slash (n : nat) : no_slash (pretty n) = true.
Proof. apply pretty_N_no_slash. Qed.

Lemma pretty_Z_no_slash (z : Z) : no_slash (pretty z) = true.
Proof.
  destruct z as [|p|p]; [done|apply pretty_N_no_slash|].
  unfold pretty, pretty_Z. simpl.
  apply (pretty_N_no_slash (Npos p)).
Qed.

Lemma app_slash_inj (s1 s2 t1 t2 : string) :
  no_slash s1 = true → no_slash s2 = true →
  s1 +:+ "/" +:+ t1 = s2 +:+ "/" +:+ t2 →
  s1 = s2 ∧ t1 = t2.
Proof.
  revert s2. induction s1 as [|a s1 IH]; intros [|b s2] Hs1 Hs2 Heq;
    simpl in *.
  - split; [done|]. injection Heq as Heq. exact Heq.
  - injection Heq as Hb _. rewrite <- Hb in Hs2. done.
  - injection Heq as Ha _. rewrite Ha in Hs1. done.
  - injection Heq as -> Heq.
    apply andb_true_iff in Hs1 as [_ Hs1]. apply andb_true_iff in Hs2 as [_ Hs2].
    destruct (IH s2 Hs1 Hs2 Heq) as [-> ->]. done.
Qed.

Lemma compound_id_inj (id id' : js_id) (ws ws' : nat) :
  no_slash (id_text id) = true → no_slash (id_text id') = true →
  compound_id id ws = compound_id id' ws' →
  id_text id = id_text id' ∧ ws = ws'.
Proof.
  intros Hid Hid' Heq. unfold compound_id in Heq.
  destruct (app_slash_inj _ _ _ _ Hid Hid' Heq) as [Htext Hws].
  split; [done|]. by apply (inj pretty).
Qed.

(** *** A request and its answer *)

Lemma on_message_request (ws : nat) (text : string) (msg : request)
    (s : server) :
  _pending_binary s = None →
  WebSocket.truthy_length (req_binary_length msg) = false →
  on_message ws (RequestFrame text (Some msg)) s
  = (set_requests
       (<[compound_id (req_id msg) ws
          := (ws, set_req_id (IdString (compound_id (req_id msg) ws)) msg)]>
          (requests s))
       (set_requests_id_map
          (<[compound_id (req_id msg) ws := req_id msg]> (requests_id_map s))
          (mark_alive ws s)),
     WebSocket.Done
       [Process (set_req_id (IdString (compound_id (req_id msg) ws)) msg) ws]).
Proof.
  intros Hpending Hlen. unfold on_message. simpl.
  rewrite Hpending, Hlen. reflexivity.
Qed.

Lemma post_open (msg : response) (transferable : option (list byte))
    (s : server) (ws : nat) (req_msg : request) :
  requests s !! resp_id msg = Some (ws, req_msg) →
  readyState (sockets s ws) ≤ 1 →
  post msg transferable s
  = (post_forget (resp_id msg) req_msg (post_send ws msg transferable s),
     WebSocket.Done ()).
Proof.
  intros Hreq Hopen. unfold post. rewrite Hreq.
  by rewrite bool_decide_eq_false_2 by lia.
Qed.

Lemma post_unknown (msg : response) (transferable : option (list byte))
    (s : server) :
  requests s !! resp_id msg = None →
  post msg transferable s
  = (s, WebSocket.Throw "TypeError: cannot read properties of undefined").
Proof. intros Hreq. unfold post. by rewrite Hreq. Qed.

Lemma sockets_set_socket (ws ws' : nat) (sock : socket) (s : server) :
  sockets (set_socket ws sock s) ws'
  = if bool_decide (ws' = ws) then sock else sockets s ws'.
Proof. reflexivity. Qed.

(** X18.  A request that arrives on a socket is handed to [process] under
    the compound id made of its own id and of the id of the socket; the
    answer posted under that compound id goes to that socket and to no
    other, and carries the id the client gave.  Unless the request
    subscribes, the manager then forgets it, and a second post for it
    throws; a subscription is kept and can be answered again. *)
Theorem request_answered_under_its_id (ws : nat) (text : string)
    (msg : request) (port_id : option Z) (body : string) (s : server) :
  _pending_binary s = None →
  WebSocket.truthy_length (req_binary_length msg) = false →
  readyState (sockets s ws) ≤ 1 →
  let id := compound_id (req_id msg) ws in
  let answer := {| resp_id := id; resp_port_id := port_id; resp_body := body |} in
  let s1 := (on_message ws (RequestFrame text (Some msg)) s).1 in
  let s2 := (post answer None s1).1 in
  (on_message ws (RequestFrame text (Some msg)) s).2
    = WebSocket.Done [Process (set_req_id (IdString id) msg) ws]
  ∧ (post answer None s1).2 = WebSocket.Done ()
  ∧ sent (sockets s2 ws)
    = sent (sockets s ws) ++ [SentMessage (Some (req_id msg)) None port_id body]
  ∧ (∀ ws', ws' ≠ ws → sent (sockets s2 ws') = sent (sockets s ws'))
  ∧ if req_subscribe msg
    then (post answer None s2).2 = WebSocket.Done ()
         ∧ requests s2 !! id = Some (ws, set_req_id (IdString id) msg)
    else requests s2 !! id = None
         ∧ requests_id_map s2 !! id = None
         ∧ post answer None s2
           = (s2, WebSocket.Throw
                    "TypeError: cannot read properties of undefined").
Proof.
  intros Hpending Hlen Hopen id answer s1 s2.
  unfold s2, s1. rewrite (on_message_request ws text msg s Hpending Hlen).
  fold id. cbn [fst snd]. split; [done|].
  set (msg' := set_req_id (IdString id) msg).
  set (s1' := set_requests _ _).
  assert (requests s1' !! resp_id answer = Some (ws, msg')) as Hreq
    by apply lookup_insert_eq.
  assert (requests_id_map s1' !! id = Some (req_id msg)) as Hmap
    by apply lookup_insert_eq.
  assert (sockets s1' ws = {| isAlive := true;
                              readyState := readyState (sockets s ws);
                              sent := sent (sockets s ws) |}) as Hsock.
  { unfold s1'. simpl. by rewrite bool_decide_eq_true_2. }
  assert (∀ ws', ws' ≠ ws → sockets s1' ws' = sockets s ws') as Hothers.
  { intros ws' Hne. unfold s1'. simpl. by rewrite bool_decide_eq_false_2. }
  assert (readyState (sockets s1' ws) ≤ 1) as Hopen' by (by rewrite Hsock).
  rewrite (post_open answer None s1' ws msg' Hreq Hopen'). cbn [fst snd].
  set (s2' := post_forget _ _ _).
  assert (sockets s2' ws
          = {| isAlive := true; readyState := readyState (sockets s ws);
               sent := sent (sockets s ws)
                       ++ [SentMessage (Some (req_id msg)) None port_id body] |})
    as Hsock2.
  { unfold s2', post_forget, post_send. simpl.
    destruct (req_subscribe msg); simpl;
      rewrite !bool_decide_eq_true_2 by done; simpl;
      by rewrite lookup_insert_eq. }
  assert (∀ ws', ws' ≠ ws → sockets s2' ws' = sockets s ws') as Hothers2.
  { intros ws' Hne. unfold s2', post_forget, post_send. simpl.
    destruct (req_subscribe msg); simpl;
      by rewrite !bool_decide_eq_false_2 by done. }
  split; [done|]. split; [by rewrite Hsock2|].
  split; [intros ws' Hne; by rewrite Hothers2|].
  destruct (req_subscribe msg) eqn:Hsub.
  - assert (requests s2' !! resp_id answer = Some (ws, msg')) as Hreq2.
    { unfold s2', post_forget. simpl. rewrite Hsub. exact Hreq. }
    assert (readyState (sockets s2' ws) ≤ 1) as Hopen2 by (by rewrite Hsock2).
    rewrite (post_open answer None s2' ws msg' Hreq2 Hopen2). done.
  - assert (requests s2' !! resp_id answer = None) as Hreq2.
    { unfold s2', post_forget. simpl. rewrite Hsub. simpl.
      apply lookup_delete_eq. }
    split; [exact Hreq2|]. split.
    + unfold s2', post_forget. simpl. rewrite Hsub. simpl.
      apply lookup_delete_eq.
    + by apply post_unknown.
Qed.

(** *** What a call of _post_chunked leaves alone *)

Lemma post_chunked_maps (ws : nat) (binary : list byte) (start end_ length : nat)
    (s : server) :
  requests (_post_chunked ws binary start end_ length s) = requests s
  ∧ requests_id_map (_post_chunked ws binary start end_ length s)
    = requests_id_map s
  ∧ _pending_binary (_post_chunked ws binary start end_ length s)
    = _pending_binary s
  ∧ chunk_size (_post_chunked ws binary start end_ length s) = chunk_size s
  ∧ ∀ ws', ws' ≠ ws →
      sockets (_post_chunked ws binary start end_ length s) ws' = sockets s ws'.
Proof.
  unfold _post_chunked. case_bool_decide; simpl; repeat split; try done.
  intros ws' Hne. by rewrite bool_decide_eq_false_2.
Qed.

Lemma post_send_maps (ws : nat) (msg : response)
    (transferable : option (list byte)) (s : server) :
  requests (post_send ws msg transferable s) = requests s
  ∧ requests_id_map (post_send ws msg transferable s) = requests_id_map s
  ∧ _pending_binary (post_send ws msg transferable s) = _pending_binary s.
Proof.
  unfold post_send. destruct transferable as [binary|]; simpl; [|done].
  destruct (post_chunked_maps ws binary 0 (chunk_size s) (length binary)
              (ws_send ws (SentMessage (requests_id_map s !! resp_id msg)
                             (Some (length binary)) (resp_port_id msg)
                             (resp_body msg)) s))
    as (-> & -> & -> & _). done.
Qed.

Lemma on_message_pending (ws : nat) (frame : client_frame) (pending : request)
    (s : server) :
  _pending_binary s = Some pending →
  frame ≠ PingFrame →
  on_message ws frame s
  = (λ r, (r.1, WebSocket.Done r.2))
      (dispatch ws
         (set_req_binary_length None
            (set_req_args
               (Some (frame_data frame
                      :: match req_args pending with
                         | Some args => drop 1 args
                         | None => []
                         end)) pending))
         (set_pending_binary None (mark_alive ws s))).
Proof.
  intros Hpending Hframe.
  destruct frame as [|text parsed|binary]; [done| |];
    unfold on_message; simpl; rewrite Hpending;
    (destruct (req_args pending) as [args|]; [|done]);
    (case_bool_decide; [done|]); by rewrite drop_ge by lia.
Qed.

(** X19.  Every request the manager keeps has an entry in the id map, and
    the handler, [post] and the timers keep it so; hence a post that
    completes sends its message with the id the client gave, never without
    one. *)
Theorem requests_keep_their_ids (s : server) (ws : nat) (frame : client_frame)
    (msg : response) (transferable : option (list byte)) :
  requests_have_ids s →
  requests_have_ids (on_message ws frame s).1
  ∧ requests_have_ids (post msg transferable s).1
  ∧ requests_have_ids (run_timer s)
  ∧ ((post msg transferable s).2 = WebSocket.Done () →
       ∃ ws' req_msg id,
         requests s !! resp_id msg = Some (ws', req_msg)
         ∧ sent (sockets (post_send ws' msg transferable s) ws')
           !! length (sent (sockets s ws'))
           = Some (SentMessage (Some id) (length <$> transferable)
                               (resp_port_id msg) (resp_body msg))).
Proof.
  intros Hinv.
  assert (∀ ws msg s, requests_have_ids s →
            requests_have_ids (dispatch ws msg s).1) as Hdispatch.
  { clear. intros ws msg s Hinv id. unfold dispatch. simpl.
    destruct (decide (compound_id (req_id msg) ws = id)) as [<-|Hne].
    - intros _. rewrite lookup_insert_eq. eauto.
    - rewrite !lookup_insert_ne by done. apply Hinv. }
  split; [|split; [|split]].
  - destruct (_pending_binary s) as [pending|] eqn:Hpending.
    + destruct frame as [|text parsed|binary]; [exact Hinv| |].
      * rewrite (on_message_pending ws _ pending s Hpending) by done.
        exact (Hdispatch ws _ (set_pending_binary None (mark_alive ws s)) Hinv).
      * rewrite (on_message_pending ws _ pending s Hpending) by done.
        exact (Hdispatch ws _ (set_pending_binary None (mark_alive ws s)) Hinv).
    + destruct frame as [|text [parsed|]|binary];
        unfold on_message; simpl; rewrite ?Hpending; try exact Hinv.
      destruct (WebSocket.truthy_length _); [exact Hinv|].
      exact (Hdispatch ws parsed (mark_alive ws s) Hinv).
  - unfold post. destruct (requests s !! resp_id msg) as [[ws' req_msg]|] eqn:Hreq;
      [|exact Hinv].
    case_bool_decide; simpl.
    + intros id. simpl. destruct (decide (resp_id msg = id)) as [<-|Hne].
      * rewrite lookup_delete_eq. by intros [? ?].
      * rewrite lookup_delete_ne by done. apply Hinv.
    + destruct (post_send_maps ws' msg transferable s) as (Hr & Hm & _).
      intros id. unfold post_forget.
      destruct (req_subscribe req_msg); simpl.
      * rewrite Hr, Hm. apply Hinv.
      * rewrite Hr, Hm. destruct (decide (resp_id msg = id)) as [<-|Hne].
        -- rewrite lookup_delete_eq. by intros [? ?].
        -- rewrite !lookup_delete_ne by done. apply Hinv.
  - unfold run_timer. destruct (timers s) as [|t rest]; [exact Hinv|].
    destruct (post_chunked_maps (timer_ws t) (timer_binary t) (timer_start t)
                (timer_end t) (timer_length t) (set_timers rest s))
      as (Hr & Hm & _).
    intros id. rewrite Hr, Hm. apply Hinv.
  - unfold post.
    destruct (requests s !! resp_id msg) as [[ws' req_msg]|] eqn:Hreq; [|done].
    case_bool_decide; [done|]. intros _.
    destruct (Hinv (resp_id msg)) as [id Hid]; [by rewrite Hreq|].
    exists ws', req_msg, id. split; [done|].
    unfold post_send. rewrite Hid.
    destruct transferable as [binary|]; simpl.
    + unfold _post_chunked. case_bool_decide; simpl;
        rewrite !bool_decide_eq_true_2 by done; simpl.
      * rewrite <- app_assoc. by apply list_lookup_middle.
      * by apply list_lookup_middle.
    + rewrite bool_decide_eq_true_2 by done. simpl.
      by apply list_lookup_middle.
Qed.

(** X20.  A post for a request whose socket is closing or closed throws
    "Connection closed" and sends nothing; the manager forgets the request
    but keeps its entry in the id map, and any further post for that
    request throws and changes nothing. *)
Theorem post_to_closed_connection (msg : response)
    (transferable transferable' : option (list byte)) (s : server)
    (ws : nat) (req_msg : request) :
  requests s !! resp_id msg = Some (ws, req_msg) →
  1 < readyState (sockets s ws) →
  (post msg transferable s).2 = WebSocket.Throw "Connection closed"
  ∧ sockets (post msg transferable s).1 = sockets s
  ∧ timers (post msg transferable s).1 = timers s
  ∧ requests (post msg transferable s).1 !! resp_id msg = None
  ∧ requests_id_map (post msg transferable s).1 = requests_id_map s
  ∧ post msg transferable' (post msg transferable s).1
    = ((post msg transferable s).1,
       WebSocket.Throw "TypeError: cannot read properties of undefined").
Proof.
  intros Hreq Hclosed. unfold post at 1 2 3 4 5 7. rewrite Hreq.
  rewrite bool_decide_eq_true_2 by done. simpl.
  repeat (split; [done || apply lookup_delete_eq|]).
  unfold post at 2. rewrite Hreq. rewrite bool_decide_eq_true_2 by done. simpl.
  apply post_unknown. apply lookup_delete_eq.
Qed.

(** *** A binary argument, from the client to process *)

(** X21.  A message whose first argument is an [ArrayBuffer] that is not
    empty, sent by [WebSocketClient.send] and read by the handler with no
    binary pending, reaches [process] once, after the second frame, with
    the buffer back in first place, without [binary_length], under the
    compound id; the other arguments are what JSON makes of them. *)
Theorem binary_argument_reaches_process (stringify : request → string)
    (ws : nat) (msg : request) (binary : list byte) (rest : list js_arg)
    (s : server) :
  _pending_binary s = None →
  req_args msg = Some (ArgBuffer binary :: rest) →
  binary ≠ [] →
  let received :=
    set_req_id (IdString (compound_id (req_id msg) ws))
      (set_req_binary_length None
         (set_req_args (Some (ArgBuffer binary :: (json_arg <$> rest))) msg)) in
  (on_messages ((λ frame, (ws, frame)) <$> send stringify msg) s).2
    = WebSocket.Done [Process received ws]
  ∧ (on_messages (take 1 ((λ frame, (ws, frame)) <$> send stringify msg)) s).2
    = WebSocket.Done []
  ∧ _pending_binary
      (on_messages ((λ frame, (ws, frame)) <$> send stringify msg) s).1 = None
  ∧ requests (on_messages ((λ frame, (ws, frame)) <$> send stringify msg) s).1
      !! compound_id (req_id msg) ws
    = Some (ws, received).
Proof.
  intros Hpending Hargs Hne received. unfold send. rewrite Hargs.
  remember (json_round_trip
              (set_req_binary_length (Some (length binary)) msg)) as pre
    eqn:Hpre.
  assert (WebSocket.truthy_length (req_binary_length pre) = true) as Htruthy.
  { rewrite Hpre. simpl. by destruct binary. }
  assert (∀ text, on_message ws (RequestFrame text (Some pre)) s
                  = (set_pending_binary (Some pre) (mark_alive ws s),
                     WebSocket.Done [])) as Hfirst.
  { intros text. unfold on_message. simpl. by rewrite Hpending, Htruthy. }
  assert (on_message ws (DataFrame binary)
            (set_pending_binary (Some pre) (mark_alive ws s))
          = (λ r, (r.1, WebSocket.Done r.2))
              (dispatch ws
                 (set_req_binary_length None
                    (set_req_args
                       (Some (ArgBuffer binary :: (json_arg <$> rest))) msg))
                 (set_pending_binary None
                    (mark_alive ws
                       (set_pending_binary (Some pre) (mark_alive ws s))))))
    as Hsecond.
  { rewrite (on_message_pending ws (DataFrame binary) pre) by done.
    rewrite Hpre. unfold json_round_trip. simpl. rewrite Hargs. simpl.
    rewrite drop_0. reflexivity. }
  cbn [fmap list_fmap take on_messages]. rewrite Hfirst, Hsecond. simpl.
  repeat split. apply lookup_insert_eq.
Qed.


(** X23.  Compound ids tell requests apart: two requests with number ids
    that differ in their id or in their socket get different compound ids,
    and after the handler read both, the manager keeps each under its own
    compound id with its own socket. *)
Theorem compound_ids_tell_requests_apart (ws ws' : nat) (n n' : Z)
    (text text' : string) (msg msg' : request) (s : server) :
  _pending_binary s = None →
  req_id msg = IdNumber n → req_id msg' = IdNumber n' →
  WebSocket.truthy_length (req_binary_length msg) = false →
  WebSocket.truthy_length (req_binary_length msg') = false →
  (n, ws) ≠ (n', ws') →
  compound_id (IdNumber n) ws ≠ compound_id (IdNumber n') ws'
  ∧ requests (on_messages [(ws, RequestFrame text (Some msg));
                           (ws', RequestFrame text' (Some msg'))] s).1
      !! compound_id (IdNumber n) ws
    = Some (ws, set_req_id (IdString (compound_id (IdNumber n) ws)) msg)
  ∧ requests (on_messages [(ws, RequestFrame text (Some msg));
                           (ws', RequestFrame text' (Some msg'))] s).1
      !! compound_id (IdNumber n') ws'
    = Some (ws', set_req_id (IdString (compound_id (IdNumber n') ws')) msg').
Proof.
  intros Hpending Hid Hid' Hlen Hlen' Hne.
  assert (compound_id (IdNumber n) ws ≠ compound_id (IdNumber n') ws') as Hcid.
  { intros Heq.
    destruct (compound_id_inj (IdNumber n) (IdNumber n') ws ws'
                (pretty_Z_no_slash n) (pretty_Z_no_slash n') Heq)
      as [Htext ->].
    simpl in Htext. apply pretty_Z_inj in Htext as ->. done. }
  split; [exact Hcid|].
  cbn [on_messages]. rewrite (on_message_request ws text msg s Hpending Hlen).
  rewrite (on_message_request ws' text' msg') by done.
  simpl. rewrite Hid, Hid'.
  split; [|apply lookup_insert_eq].
  rewrite lookup_insert_ne by done. apply lookup_insert_eq.
Qed.

(** X24.  An empty [ArrayBuffer] as first argument does not make the
    round trip: its [binary_length] is 0, so the handler processes the
    announcing message at once, with an empty object in place of the
    buffer, and throws on the binary frame that follows. *)
Theorem empty_binary_argument_is_lost (stringify : request → string)
    (ws : nat) (msg : request) (rest : list js_arg) (s : server) :
  _pending_binary s = None →
  req_args msg = Some (ArgBuffer [] :: rest) →
  ∃ text,
    send stringify msg
    = [RequestFrame text
         (Some (json_round_trip (set_req_binary_length (Some 0) msg)));
       DataFrame []]
    ∧ (on_message ws
         (RequestFrame text
            (Some (json_round_trip (set_req_binary_length (Some 0) msg)))) s).2
      = WebSocket.Done
          [Process
             (set_req_id (IdString (compound_id (req_id msg) ws))
                (set_req_binary_length (Some 0)
                   (set_req_args (Some (ArgJson "{}" :: (json_arg <$> rest)))
                      msg))) ws]
    ∧ (on_message ws (DataFrame [])
         (on_message ws
            (RequestFrame text
               (Some (json_round_trip (set_req_binary_length (Some 0) msg))))
            s).1).2
      = WebSocket.Throw "SyntaxError: JSON.parse".
Proof.
  intros Hpending Hargs. eexists. split.
  { unfold send. rewrite Hargs. reflexivity. }
  rewrite on_message_request by done.
  split.
  - simpl. unfold json_round_trip. simpl. by rewrite Hargs.
  - unfold on_message. simpl. by rewrite Hpending.
Qed.

(** *** The timers of a chunked post *)

Lemma run_timers_one_binary (fuel : nat) :
  ∀ (s : server) (ws : nat) (binary : list byte) (start end_ length : nat)
    (chunks : list (list byte)),
    timers s = [{| timer_ws := ws; timer_binary := binary;
                   timer_start := start; timer_end := end_;
                   timer_length := length |}] →
    WebSocket._post_chunked fuel (chunk_size s) binary start end_ length
    = Some chunks →
    timers (run_timers (S (List.length chunks)) s) = []
    ∧ sent (sockets (run_timers (S (List.length chunks)) s) ws)
      = sent (sockets s ws) ++ (SentBinary <$> chunks)
    ∧ requests (run_timers (S (List.length chunks)) s) = requests s
    ∧ requests_id_map (run_timers (S (List.length chunks)) s)
      = requests_id_map s
    ∧ ∀ ws', ws' ≠ ws →
        sockets (run_timers (S (List.length chunks)) s) ws' = sockets s ws'.
Proof.
  induction fuel as [|fuel IH];
    intros s ws binary start end_ length chunks Htimers Hchunks; [done|].
  simpl in Hchunks. cbn [run_timers].
  assert (run_timer s
          = _post_chunked ws binary start end_ length (set_timers [] s)) as ->.
  { unfold run_timer. by rewrite Htimers. }
  unfold _post_chunked.
  replace (chunk_size (set_timers [] s)) with (chunk_size s) by done.
  destruct (bool_decide (start < length)) eqn:Hlt.
  - set (stop := if bool_decide (length < start + chunk_size s)
                 then length else start + chunk_size s) in *.
    destruct (WebSocket._post_chunked fuel (chunk_size s) binary stop stop length)
      as [rest|] eqn:Hrest; [|done].
    injection Hchunks as <-.
    set (s1 := set_timers _ _).
    destruct (IH s1 ws binary stop stop length rest) as (Ht & Hs & Hr & Hm & Ho);
      [done|exact Hrest|].
    cbn [List.length]. rewrite Ht, Hs, Hr, Hm.
    repeat split; try done.
    + unfold s1. simpl. rewrite bool_decide_eq_true_2 by done. simpl.
      by rewrite <- app_assoc.
    + intros ws' Hne. rewrite (Ho ws' Hne). unfold s1. simpl.
      by rewrite bool_decide_eq_false_2.
  - injection Hchunks as <-. simpl. by rewrite app_nil_r.
Qed.

(** The state right after [post] returned for a binary, and after its
    timers ran with no other send in between. *)
Lemma post_binary_then_timers (fuel : nat) (msg : response)
    (binary : list byte) (s : server) (ws : nat) (req_msg : request)
    (chunks : list (list byte)) :
  timers s = [] →
  requests s !! resp_id msg = Some (ws, req_msg) →
  readyState (sockets s ws) ≤ 1 →
  WebSocket._post_chunked fuel (chunk_size s) binary 0 (chunk_size s)
    (length binary) = Some chunks →
  (post msg (Some binary) s).2 = WebSocket.Done ()
  ∧ timers (run_timers (length chunks) (post msg (Some binary) s).1) = []
  ∧ sent (sockets (run_timers (length chunks) (post msg (Some binary) s).1) ws)
    = sent (sockets s ws)
      ++ SentMessage (requests_id_map s !! resp_id msg) (Some (length binary))
                     (resp_port_id msg) (resp_body msg)
         :: (SentBinary <$> chunks).
Proof.
  intros Htimers Hreq Hopen Hchunks.
  rewrite (post_open msg (Some binary) s ws req_msg Hreq Hopen). cbn [fst snd].
  split; [done|].
  destruct fuel as [|fuel]; [done|]. simpl in Hchunks.
  unfold post_send.
  set (s0 := ws_send ws _ s).
  unfold _post_chunked. change (chunk_size s0) with (chunk_size s).
  cbn [Nat.add].
  destruct (bool_decide (0 < length binary)) eqn:Hlt.
  - set (stop := if bool_decide (length binary < chunk_size s)
                 then length binary else chunk_size s) in *.
    destruct (WebSocket._post_chunked fuel (chunk_size s) binary stop stop
                (length binary)) as [rest|] eqn:Hrest; [|done].
    injection Hchunks as <-.
    set (s1 := set_timers _ _).
    assert (timers (post_forget (resp_id msg) req_msg s1)
            = [{| timer_ws := ws; timer_binary := binary; timer_start := stop;
                  timer_end := stop; timer_length := length binary |}]) as Ht1.
    { unfold post_forget, s1, s0. destruct (req_subscribe req_msg); simpl;
        by rewrite Htimers. }
    assert (chunk_size (post_forget (resp_id msg) req_msg s1) = chunk_size s)
      as Hcs by (unfold post_forget; by destruct (req_subscribe req_msg)).
    destruct (run_timers_one_binary fuel (post_forget (resp_id msg) req_msg s1)
                ws binary stop stop (length binary) rest Ht1)
      as (Ht & Hs & _); [by rewrite Hcs|].
    cbn [length]. rewrite Ht, Hs. split; [done|].
    assert (sent (sockets (post_forget (resp_id msg) req_msg s1) ws)
            = (sent (sockets s ws)
               ++ [SentMessage (requests_id_map s !! resp_id msg)
                     (Some (length binary)) (resp_port_id msg) (resp_body msg)])
              ++ [SentBinary (WebSocket.slice binary 0 stop)]) as ->.
    { unfold post_forget, s1, s0. destruct (req_subscribe req_msg); simpl;
        by rewrite !bool_decide_eq_true_2 by done. }
    by rewrite <- !app_assoc.
  - injection Hchunks as <-. simpl.
    unfold post_forget, s0. destruct (req_subscribe req_msg); simpl;
      rewrite Htimers, bool_decide_eq_true_2 by done; done.
Qed.

(** *** From post to the handler of the client *)

Lemma mapM_to_ws_frame_cons (frame : server_frame) (frames : list server_frame) :
  mapM to_ws_frame (frame :: frames)
  = y ← to_ws_frame frame; k ← mapM to_ws_frame frames; Some (y :: k).
Proof. reflexivity. Qed.

Lemma mapM_to_ws_frame_chunks (chunks : list (list byte)) :
  mapM to_ws_frame (SentBinary <$> chunks)
  = Some (WebSocket.BinaryFrame <$> chunks).
Proof.
  induction chunks as [|chunk chunks IH]; [done|].
  change (SentBinary <$> chunk :: chunks)
    with (SentBinary chunk :: (SentBinary <$> chunks)).
  rewrite mapM_to_ws_frame_cons, IH. reflexivity.
Qed.

(** X25.  End to end: when a request with a number id other than 0 is
    answered by a post with a binary that is not empty, on an open socket
    and with no timer left from earlier posts, then, once the timers of the
    post have run, the frames handed to the socket are the announcing
    message under the id of the client followed by the chunks, and a client
    with no binary pending that receives them hands its handler the whole
    binary, once. *)
Theorem posted_binary_reaches_the_handler (fuel : nat) (msg : response)
    (binary : list byte) (s : server) (ws : nat) (req_msg : request) (n : Z)
    (c : WebSocket.client) :
  timers s = [] →
  requests s !! resp_id msg = Some (ws, req_msg) →
  readyState (sockets s ws) ≤ 1 →
  requests_id_map s !! resp_id msg = Some (IdNumber n) →
  0 < chunk_size s → binary ≠ [] → n ≠ 0%Z → length binary < fuel →
  WebSocket.idle c →
  ∃ runs frames ws_frames c',
    (post msg (Some binary) s).2 = WebSocket.Done ()
    ∧ timers (run_timers runs (post msg (Some binary) s).1) = []
    ∧ sent (sockets (run_timers runs (post msg (Some binary) s).1) ws)
      = sent (sockets s ws) ++ frames
    ∧ mapM to_ws_frame frames = Some ws_frames
    ∧ WebSocket.receive c ws_frames
      = WebSocket.Done
          (c', [WebSocket.delivered n (resp_port_id msg) binary])
    ∧ WebSocket.idle c'.
Proof.
  intros Htimers Hreq Hopen Hid Hsize Hne Hn Hfuel Hidle.
  set (m := {| WebSocket.msg_id := n; WebSocket.msg_binary_length := None;
               WebSocket.msg_port_id := resp_port_id msg;
               WebSocket.msg_body := resp_body msg |}).
  destruct (WebSocketProps.receive_post_frames (chunk_size s) fuel
              (m, Some binary) c Hsize Hidle)
    as (ws_frames & c' & Hframes & Hrecv & Hidle'); [done|].
  simpl in Hframes. unfold WebSocket.post_binary in Hframes.
  destruct (WebSocket._post_chunked fuel (chunk_size s) binary 0
              (chunk_size s) (length binary)) as [chunks|] eqn:Hchunks; [|done].
  simpl in Hframes. injection Hframes as <-.
  destruct (post_binary_then_timers fuel msg binary s ws req_msg chunks
              Htimers Hreq Hopen Hchunks) as (Hdone & Ht & Hsent).
  eexists (length chunks), _, _, c'.
  split; [exact Hdone|]. split; [exact Ht|]. split; [exact Hsent|].
  split; [|split; [exact Hrecv|exact Hidle']].
  rewrite Hid, mapM_to_ws_frame_cons, mapM_to_ws_frame_chunks. reflexivity.
Qed.

(** X26.  End to end, with a second post in between: a binary longer than
    the chunk size is posted, and before its timers run a plain message is
    posted to the same socket.  The socket is handed the announcing
    message, the first chunk, the plain message, then the other chunks; a
    client that receives them never calls its handler: neither the binary
    nor the plain message is delivered. *)
Theorem post_between_chunks_loses_both (fuel : nat) (msg msg' : response)
    (binary : list byte) (s : server) (ws : nat) (req_msg req_msg' : request)
    (n n' : Z) (c : WebSocket.client) :
  timers s = [] →
  requests s !! resp_id msg = Some (ws, req_msg) →
  requests s !! resp_id msg' = Some (ws, req_msg') →
  resp_id msg ≠ resp_id msg' →
  readyState (sockets s ws) ≤ 1 →
  requests_id_map s !! resp_id msg = Some (IdNumber n) →
  requests_id_map s !! resp_id msg' = Some (IdNumber n') →
  0 < chunk_size s → chunk_size s < length binary → n ≠ 0%Z →
  length binary < fuel →
  WebSocket.idle c →
  ∃ runs chunk rest ws_frames c',
    (post msg' None (post msg (Some binary) s).1).2 = WebSocket.Done ()
    ∧ timers (run_timers runs
                (post msg' None (post msg (Some binary) s).1).1) = []
    ∧ sent (sockets (run_timers runs
                       (post msg' None (post msg (Some binary) s).1).1) ws)
      = sent (sockets s ws)
        ++ [SentMessage (Some (IdNumber n)) (Some (length binary))
                        (resp_port_id msg) (resp_body msg);
            SentBinary chunk;
            SentMessage (Some (IdNumber n')) None
                        (resp_port_id msg') (resp_body msg')]
        ++ (SentBinary <$> rest)
    ∧ chunk ++ concat rest = binary
    ∧ mapM to_ws_frame
        ([SentMessage (Some (IdNumber n)) (Some (length binary))
                      (resp_port_id msg) (resp_body msg);
          SentBinary chunk;
          SentMessage (Some (IdNumber n')) None
                      (resp_port_id msg') (resp_body msg')]
         ++ (SentBinary <$> rest)) = Some ws_frames
    ∧ WebSocket.receive c ws_frames = WebSocket.Done (c', []).
Proof.
  intros Htimers Hreq Hreq' Hids Hopen Hid Hid' Hsize Hlong Hn Hfuel Hidle.
  destruct (WebSocketProps.post_chunked_chunks (chunk_size s) binary fuel 0
              (chunk_size s)) as (chunks & Hchunks & Hcat & Hall);
    [done|lia|lia|].
  rewrite drop_0 in Hcat.
  destruct fuel as [|fuel]; [lia|]. simpl in Hchunks.
  rewrite bool_decide_eq_true_2 in Hchunks by lia.
  rewrite bool_decide_eq_false_2 in Hchunks by lia.
  destruct (WebSocket._post_chunked fuel (chunk_size s) binary (chunk_size s)
              (chunk_size s) (length binary)) as [rest|] eqn:Hrest; [|done].
  simpl in Hchunks. injection Hchunks as <-.
  set (chunk := WebSocket.slice binary 0 (chunk_size s)) in *.
  apply Forall_cons in Hall as [Hchunk Hall].
  assert (length chunk = chunk_size s) as Hlen.
  { unfold chunk, WebSocket.slice. rewrite length_take, length_drop. lia. }
  (* the first post *)
  rewrite (post_open msg (Some binary) s ws req_msg Hreq Hopen). cbn [fst snd].
  set (pre := SentMessage (Some (IdNumber n)) (Some (length binary))
                (resp_port_id msg) (resp_body msg)).
  set (plain := SentMessage (Some (IdNumber n')) None
                  (resp_port_id msg') (resp_body msg')).
  set (t := {| timer_ws := ws; timer_binary := binary;
               timer_start := chunk_size s; timer_end := chunk_size s;
               timer_length := length binary |}).
  set (s1 := post_forget (resp_id msg) req_msg (post_send ws msg (Some binary) s)).
  assert (timers s1 = [t] ∧ chunk_size s1 = chunk_size s
          ∧ sent (sockets s1 ws) = sent (sockets s ws) ++ [pre; SentBinary chunk]
          ∧ readyState (sockets s1 ws) = readyState (sockets s ws)
          ∧ requests s1 !! resp_id msg' = Some (ws, req_msg')
          ∧ requests_id_map s1 !! resp_id msg' = Some (IdNumber n'))
    as (Ht1 & Hcs1 & Hsent1 & Hready1 & Hreq1 & Hid1).
  { unfold s1, post_forget, post_send, _post_chunked. rewrite Hid.
    change (chunk_size (ws_send ws _ s)) with (chunk_size s).
    rewrite bool_decide_eq_true_2 by lia. cbn [Nat.add].
    rewrite bool_decide_eq_false_2 by lia.
    destruct (req_subscribe req_msg); simpl;
      rewrite ?Htimers, ?bool_decide_eq_true_2 by done; simpl;
      rewrite ?lookup_delete_ne by done;
      rewrite <- ?app_assoc; done. }
  (* the second post *)
  assert (readyState (sockets s1 ws) ≤ 1) as Hopen1 by (by rewrite Hready1).
  rewrite (post_open msg' None s1 ws req_msg' Hreq1 Hopen1). cbn [fst snd].
  set (s2 := post_forget (resp_id msg') req_msg' (post_send ws msg' None s1)).
  assert (timers s2 = [t] ∧ chunk_size s2 = chunk_size s
          ∧ sent (sockets s2 ws)
            = sent (sockets s ws) ++ [pre; SentBinary chunk; plain])
    as (Ht2 & Hcs2 & Hsent2).
  { unfold s2, post_forget, post_send. rewrite Hid1.
    destruct (req_subscribe req_msg'); simpl;
      rewrite ?bool_decide_eq_true_2 by done; simpl;
      rewrite Ht1, Hcs1, Hsent1, <- ?app_assoc; done. }
  (* the timers *)
  destruct (run_timers_one_binary fuel s2 ws binary (chunk_size s)
              (chunk_size s) (length binary) rest Ht2)
    as (Ht3 & Hsent3 & _); [by rewrite Hcs2|].
  (* the client *)
  set (m := {| WebSocket.msg_id := n; WebSocket.msg_binary_length := None;
               WebSocket.msg_port_id := resp_port_id msg;
               WebSocket.msg_body := resp_body msg |}).
  assert (binary ≠ []) as Hne by (intros ->; simpl in Hlong; lia).
  pose proof (WebSocketProps.onmessage_pre_message c m binary Hidle Hne) as Hpre.
  cbn [m WebSocket.msg_id WebSocket.msg_port_id] in Hpre.
  set (full1 := chunk ++ drop (length chunk) (replicate (length binary) x00)).
  assert (length full1 = length binary) as Hfull1.
  { unfold full1. rewrite length_app, length_drop, length_replicate. lia. }
  destruct (WebSocketProps.receive_chunks_after_nan rest
              {| WebSocket._full_binary := Some full1;
                 WebSocket._total_chunk_length := None;
                 WebSocket._pending_binary := Some n;
                 WebSocket._pending_binary_length := Some (length binary);
                 WebSocket._pending_port_id := resp_port_id msg |} full1)
    as [c' Hwedged]; [done| |done| |].
  { simpl. destruct (n =? 0)%Z eqn:Hz; [lia|done]. }
  { eapply Forall_impl; [exact Hall|]. simpl. intros chunk' Hle. lia. }
  exists (S (length rest)), chunk, rest.
  eexists _, c'.
  split; [done|]. split; [exact Ht3|].
  split; [rewrite Hsent3, Hsent2, <- app_assoc; reflexivity|].
  split; [exact Hcat|].
  split.
  { cbn [app]. rewrite !mapM_to_ws_frame_cons, mapM_to_ws_frame_chunks.
    reflexivity. }
  cbn [to_ws_frame mbind option_bind mret option_ret WebSocket.receive].
  change (WebSocket.TextFrame _) with (WebSocket.TextFrame (WebSocket.pre_message m binary)) at 1.
  rewrite Hpre. cbv beta iota.
  assert (WebSocket.onmessage
            {| WebSocket._full_binary := Some (replicate (length binary) x00);
               WebSocket._total_chunk_length := Some 0;
               WebSocket._pending_binary := Some n;
               WebSocket._pending_binary_length := Some (length binary);
               WebSocket._pending_port_id := resp_port_id msg |}
            (WebSocket.BinaryFrame chunk)
          = WebSocket.Done
              ({| WebSocket._full_binary := Some full1;
                  WebSocket._total_chunk_length := Some (length chunk);
                  WebSocket._pending_binary := Some n;
                  WebSocket._pending_binary_length := Some (length binary);
                  WebSocket._pending_port_id := resp_port_id msg |}, []))
    as Hchunk0.
  { unfold WebSocket.onmessage. simpl.
    destruct (n =? 0)%Z eqn:Hz; [lia|]. simpl.
    unfold WebSocket.on_chunk, WebSocket.uint8array_set. simpl.
    rewrite length_replicate. rewrite bool_decide_eq_true_2 by lia. simpl.
    replace (length chunk =? length binary) with false
      by (symmetry; apply Nat.eqb_neq; lia).
    done. }
  assert (∀ text_msg,
            WebSocket.onmessage
              {| WebSocket._full_binary := Some full1;
                 WebSocket._total_chunk_length := Some (length chunk);
                 WebSocket._pending_binary := Some n;
                 WebSocket._pending_binary_length := Some (length binary);
                 WebSocket._pending_port_id := resp_port_id msg |}
              (WebSocket.TextFrame text_msg)
            = WebSocket.Done
                ({| WebSocket._full_binary := Some full1;
                    WebSocket._total_chunk_length := None;
                    WebSocket._pending_binary := Some n;
                    WebSocket._pending_binary_length := Some (length binary);
                    WebSocket._pending_port_id := resp_port_id msg |}, []))
    as Htext.
  { intros text_msg. unfold WebSocket.onmessage. simpl.
    destruct (n =? 0)%Z eqn:Hz; [lia|]. simpl.
    unfold WebSocket.on_chunk, WebSocket.uint8array_set. simpl.
    rewrite bool_decide_eq_true_2 by lia. simpl.
    by rewrite Nat.add_0_r, take_drop. }
  rewrite Hchunk0. cbv beta iota. rewrite Htext. cbv beta iota.
  rewrite Hwedged. reflexivity.
Qed.

(** *** The theorems on the example manager *)

Lemma example_server_timers : timers example_server = [].
Proof. reflexivity. Qed.

Lemma example_server_request (n : Z) :
  n = 7%Z ∨ n = 8%Z →
  requests example_server !! compound_id (IdNumber n) 0
  = Some (0, set_req_id (IdString (compound_id (IdNumber n) 0))
               (example_request n None))
  ∧ requests_id_map example_server !! compound_id (IdNumber n) 0
    = Some (IdNumber n).
Proof. intros [-> | ->]; split; vm_compute; reflexivity. Qed.

Lemma request_answered_under_its_id_witness :
  _pending_binary (new_server 2) = None
  ∧ WebSocket.truthy_length (req_binary_length (example_request 7 None)) = false
  ∧ readyState (sockets (new_server 2) 0) ≤ 1
  ∧ (on_message 0 (RequestFrame "7" (Some (example_request 7 None)))
       (new_server 2)).2
    = WebSocket.Done
        [Process (set_req_id (IdString (compound_id (IdNumber 7) 0))
                    (example_request 7 None)) 0].
Proof.
  assert (_pending_binary (new_server 2) = None) as Hpending by reflexivity.
  assert (WebSocket.truthy_length (req_binary_length (example_request 7 None))
          = false) as Hplain by reflexivity.
  assert (readyState (sockets (new_server 2) 0) ≤ 1) as Hopen by (simpl; lia).
  split; [exact Hpending|]. split; [exact Hplain|]. split; [exact Hopen|].
  exact (proj1 (request_answered_under_its_id 0 "7" (example_request 7 None)
                  None "arrow" (new_server 2) Hpending Hplain Hopen)).
Defined.

Lemma requests_keep_their_ids_witness :
  requests_have_ids (new_server 2)
  ∧ requests_have_ids
      (on_message 0 (RequestFrame "7" (Some (example_request 7 None)))
         (new_server 2)).1.
Proof.
  assert (requests_have_ids (new_server 2)) as Hids.
  { intros id [req Hreq]. simpl in Hreq. by rewrite lookup_empty in Hreq. }
  split; [exact Hids|].
  exact (proj1 (requests_keep_their_ids (new_server 2) 0
                  (RequestFrame "7" (Some (example_request 7 None)))
                  (example_answer 7 0) None Hids)).
Defined.

Lemma post_to_closed_connection_witness :
  requests example_closed_server !! resp_id (example_answer 7 0)
  = Some (0, set_req_id (IdString (compound_id (IdNumber 7) 0))
               (example_request 7 None))
  ∧ 1 < readyState (sockets example_closed_server 0)
  ∧ (post (example_answer 7 0) None example_closed_server).2
    = WebSocket.Throw "Connection closed"
  ∧ sockets (post (example_answer 7 0) None example_closed_server).1
    = sockets example_closed_server.
Proof.
  assert (requests example_closed_server !! resp_id (example_answer 7 0)
          = Some (0, set_req_id (IdString (compound_id (IdNumber 7) 0))
                       (example_request 7 None))) as Hreq
    by (vm_compute; reflexivity).
  assert (1 < readyState (sockets example_closed_server 0)) as Hclosed
    by (vm_compute; lia).
  split; [exact Hreq|]. split; [exact Hclosed|].
  destruct (post_to_closed_connection (example_answer 7 0) None None
              example_closed_server 0 _ Hreq Hclosed)
    as (Hthrow & Hsockets & _).
  split; [exact Hthrow|exact Hsockets].
Defined.

Lemma binary_argument_reaches_process_witness :
  let msg :=
    example_request 7
      (Some [ArgBuffer WebSocket.example_binary; ArgText "trades"]) in
  _pending_binary (new_server 2) = None
  ∧ req_args msg
    = Some [ArgBuffer WebSocket.example_binary; ArgText "trades"]
  ∧ WebSocket.example_binary ≠ []
  ∧ (on_messages ((λ frame, (0, frame)) <$> send (λ _, "7"%string) msg)
       (new_server 2)).2
    = WebSocket.Done
        [Process
           (set_req_id (IdString (compound_id (IdNumber 7) 0))
              (set_req_binary_length None
                 (set_req_args
                    (Some (ArgBuffer WebSocket.example_binary
                           :: (json_arg <$> [ArgText "trades"]))) msg))) 0].
Proof.
  intros msg.
  assert (_pending_binary (new_server 2) = None) as Hpending by reflexivity.
  assert (req_args msg
          = Some [ArgBuffer WebSocket.example_binary; ArgText "trades"])
    as Hargs by reflexivity.
  assert (WebSocket.example_binary ≠ []) as Hbinary by discriminate.
  split; [exact Hpending|]. split; [exact Hargs|]. split; [exact Hbinary|].
  exact (proj1 (binary_argument_reaches_process (λ _, "7"%string) 0 msg
                  WebSocket.example_binary [ArgText "trades"] (new_server 2)
                  Hpending Hargs Hbinary)).
Defined.


Lemma compound_ids_tell_requests_apart_witness :
  _pending_binary (new_server 2) = None
  ∧ (7%Z, 0) ≠ (7%Z, 1)
  ∧ compound_id (IdNumber 7) 0 ≠ compound_id (IdNumber 7) 1
  ∧ requests (on_messages
                [(0, RequestFrame "7" (Some (example_request 7 None)));
                 (1, RequestFrame "7" (Some (example_request 7 None)))]
                (new_server 2)).1
      !! compound_id (IdNumber 7) 0
    = Some (0, set_req_id (IdString (compound_id (IdNumber 7) 0))
                 (example_request 7 None)).
Proof.
  assert (_pending_binary (new_server 2) = None) as Hpending by reflexivity.
  assert ((7%Z, 0) ≠ (7%Z, 1)) as Hapart by discriminate.
  split; [exact Hpending|]. split; [exact Hapart|].
  destruct (compound_ids_tell_requests_apart 0 1 7 7 "7" "7"
              (example_request 7 None) (example_request 7 None) (new_server 2)
              Hpending eq_refl eq_refl eq_refl eq_refl Hapart)
    as (Hids & Hfirst & _).
  split; [exact Hids|exact Hfirst].
Defined.

Lemma empty_binary_argument_is_lost_witness :
  let msg := example_request 7 (Some [ArgBuffer []; ArgText "trades"]) in
  _pending_binary (new_server 2) = None
  ∧ req_args msg = Some [ArgBuffer []; ArgText "trades"]
  ∧ ∃ text,
      send (λ _, "7"%string) msg
      = [RequestFrame text
           (Some (json_round_trip (set_req_binary_length (Some 0) msg)));
         DataFrame []]
      ∧ (on_message 0 (DataFrame [])
           (on_message 0
              (RequestFrame text
                 (Some (json_round_trip (set_req_binary_length (Some 0) msg))))
              (new_server 2)).1).2
        = WebSocket.Throw "SyntaxError: JSON.parse".
Proof.
  intros msg.
  assert (_pending_binary (new_server 2) = None) as Hpending by reflexivity.
  assert (req_args msg = Some [ArgBuffer []; ArgText "trades"]) as Hargs
    by reflexivity.
  split; [exact Hpending|]. split; [exact Hargs|].
  destruct (empty_binary_argument_is_lost (λ _, "7"%string) 0 msg
              [ArgText "trades"] (new_server 2) Hpending Hargs)
    as (text & Hsend & _ & Hthrow).
  exists text. split; [exact Hsend|exact Hthrow].
Defined.

Lemma posted_binary_reaches_the_handler_witness :
  timers example_server = []
  ∧ requests example_server !! resp_id (example_answer 7 0)
    = Some (0, set_req_id (IdString (compound_id (IdNumber 7) 0))
                 (example_request 7 None))
  ∧ readyState (sockets example_server 0) ≤ 1
  ∧ requests_id_map example_server !! resp_id (example_answer 7 0)
    = Some (IdNumber 7)
  ∧ 0 < chunk_size example_server
  ∧ WebSocket.example_binary ≠ [] ∧ 7%Z ≠ 0%Z
  ∧ length WebSocket.example_binary < 6
  ∧ WebSocket.idle WebSocket.new_client
  ∧ ∃ runs frames ws_frames c',
      sent (sockets (run_timers runs
                       (post (example_answer 7 0)
                          (Some WebSocket.example_binary) example_server).1) 0)
      = sent (sockets example_server 0) ++ frames
      ∧ mapM to_ws_frame frames = Some ws_frames
      ∧ WebSocket.receive WebSocket.new_client ws_frames
        = WebSocket.Done
            (c', [WebSocket.HandleBinary 7 WebSocket.example_binary]).
Proof.
  destruct (example_server_request 7 (or_introl eq_refl)) as [Hreq Hid].
  assert (readyState (sockets example_server 0) ≤ 1) as Hopen
    by (vm_compute; lia).
  assert (0 < chunk_size example_server) as Hsize by (vm_compute; lia).
  assert (WebSocket.example_binary ≠ []) as Hbinary by discriminate.
  assert (7%Z ≠ 0%Z) as Hn by discriminate.
  assert (length WebSocket.example_binary < 6) as Hfuel by (simpl; lia).
  split; [exact example_server_timers|]. split; [exact Hreq|].
  split; [exact Hopen|]. split; [exact Hid|]. split; [exact Hsize|].
  split; [exact Hbinary|]. split; [exact Hn|]. split; [exact Hfuel|].
  split; [exact WebSocketProps.idle_new_client|].
  destruct (posted_binary_reaches_the_handler 6 (example_answer 7 0)
              WebSocket.example_binary example_server 0 _ 7
              WebSocket.new_client example_server_timers Hreq Hopen Hid Hsize
              Hbinary Hn Hfuel WebSocketProps.idle_new_client)
    as (runs & frames & ws_frames & c' & _ & _ & Hsent & Hframes & Hrecv & _).
  exists runs, frames, ws_frames, c'.
  split; [exact Hsent|]. split; [exact Hframes|exact Hrecv].
Defined.

Lemma post_between_chunks_loses_both_witness :
  timers example_server = []
  ∧ resp_id (example_answer 7 0) ≠ resp_id (example_answer 8 0)
  ∧ readyState (sockets example_server 0) ≤ 1
  ∧ 0 < chunk_size example_server
  ∧ chunk_size example_server < length WebSocket.example_binary
  ∧ 7%Z ≠ 0%Z
  ∧ length WebSocket.example_binary < 6
  ∧ WebSocket.idle WebSocket.new_client
  ∧ ∃ runs chunk rest ws_frames c',
      mapM to_ws_frame
        ([SentMessage (Some (IdNumber 7))
                      (Some (length WebSocket.example_binary))
                      None "arrow";
          SentBinary chunk;
          SentMessage (Some (IdNumber 8)) None None "arrow"]
         ++ (SentBinary <$> rest)) = Some ws_frames
      ∧ timers (run_timers runs
                  (post (example_answer 8 0) None
                     (post (example_answer 7 0)
                        (Some WebSocket.example_binary) example_server).1).1)
        = []
      ∧ WebSocket.receive WebSocket.new_client ws_frames
        = WebSocket.Done (c', []).
Proof.
  destruct (example_server_request 7 (or_introl eq_refl)) as [Hreq Hid].
  destruct (example_server_request 8 (or_intror eq_refl)) as [Hreq' Hid'].
  assert (resp_id (example_answer 7 0) ≠ resp_id (example_answer 8 0))
    as Hapart by (vm_compute; discriminate).
  assert (readyState (sockets example_server 0) ≤ 1) as Hopen
    by (vm_compute; lia).
  assert (0 < chunk_size example_server) as Hsize by (vm_compute; lia).
  assert (chunk_size example_server < length WebSocket.example_binary)
    as Hlong by (vm_compute; lia).
  assert (7%Z ≠ 0%Z) as Hn by discriminate.
  assert (length WebSocket.example_binary < 6) as Hfuel by (simpl; lia).
  split; [exact example_server_timers|]. split; [exact Hapart|].
  split; [exact Hopen|]. split; [exact Hsize|]. split; [exact Hlong|].
  split; [exact Hn|]. split; [exact Hfuel|].
  split; [exact WebSocketProps.idle_new_client|].
  destruct (post_between_chunks_loses_both 6 (example_answer 7 0)
              (example_answer 8 0) WebSocket.example_binary example_server 0
              _ _ 7 8 WebSocket.new_client example_server_timers Hreq Hreq'
              Hapart Hopen Hid Hid' Hsize Hlong Hn Hfuel
              WebSocketProps.idle_new_client)
    as (runs & chunk & rest & ws_frames & c' & _ & Htimers & _ & _ & Hframes
        & Hrecv).
  exists runs, chunk, rest, ws_frames, c'.
  split; [exact Hframes|]. split; [exact Htimers|exact Hrecv].
Defined.

End ConnectionsProps.
